(** * JAProxy: the result carrier and the packet listener

    A shallow embedding of [src/JAProxy/Result.h] and
    [src/JAProxy/JKAListener.cpp], and the properties of the two that the
    specification states.

    Layout: the embedding first (result carrier, effect monad, stream
    insertion, capture adapter interface, listener), then the theorems. *)

From Stdlib Require Import String Ascii List ZArith NArith Bool Lia.
From Stdlib Require Import Strings.Byte.
Import ListNotations.

Local Open Scope list_scope.
Local Open Scope string_scope.

Set Implicit Arguments.

(* ===================================================================== *)
(** ** Result.h: the result carrier                                       *)
(* ===================================================================== *)

(** [template<typename T> struct Result]: an aggregate of three public
    members, default-initialised to empty / false / empty. *)
Record Result (T : Type) : Type := mkResult {
  result        : option T;        (* std::optional<T> result{}            *)
  resultSuccess : bool;            (* bool resultSuccess = false           *)
  errorMessage  : option string    (* std::optional<std::string> errorMessage{} *)
}.

Arguments mkResult {T} _ _ _.

(** What [std::optional<T>::value()] does: it hands out the contained
    object, or raises [std::bad_optional_access] when there is none (inside
    the [noexcept] accessors of [Result] that ends the program). *)
Inductive Access (T : Type) : Type :=
| Got (v : T)
| BadOptionalAccess.

Arguments Got {T} v.
Arguments BadOptionalAccess {T}.

(** Values that can be compared with the literal [0], the constraint of
    [successOnZero] ([decltype(std::declval<TT>() == 0)] converts to
    [bool]). *)
Class EqZero (T : Type) := eq_zero : T -> bool.

#[global] Instance EqZero_Z : EqZero Z := fun v => (v =? 0)%Z.

(** [std::string_view]: a view of characters that are stored elsewhere.
    [sv_chars] is what the storage held when the view was taken, [sv_live]
    whether that storage still exists. *)
Record string_view : Type := mkView {
  sv_chars : string;
  sv_live  : bool
}.

(** What reading characters yields: the characters, or nothing that can be
    relied on. *)
Inductive Chars : Type :=
| Known (s : string)
| Indeterminate.

(** Reading through a view.  The characters of a view whose storage is gone
    are not determined (the read is undefined behaviour). *)
Definition sv_read (v : string_view) : Chars :=
  if sv_live v then Known (sv_chars v) else Indeterminate.

(** The view of a string literal: static storage. *)
Definition literal (s : string) : string_view := mkView s true.

(** The view of a temporary [std::string], as it is once the full
    expression that made the temporary has ended. *)
Definition view_of_temporary (s : string) : string_view := mkView s false.

(** [std::optional<std::string>::value_or]: returns a [std::string] by
    value. *)
Definition value_or (o : option string) (default : string) : string :=
  match o with
  | Some m => m
  | None => default
  end.

(** The conversion [long long -> int] on a two's complement machine. *)
Definition int_of_long_long (z : Z) : Z :=
  ((z + 2 ^ 31) mod 2 ^ 32 - 2 ^ 31)%Z.

Section ResultCarrier.
Context {T : Type}.

(** [Result{ std::forward<TT>(result), true, {} }] *)
Definition success (v : T) : Result T :=
  mkResult (Some v) true None.

(** [fail(TT && result, std::string message)] *)
Definition fail (v : T) (message : string) : Result T :=
  mkResult (Some v) false (Some message).

(** [fail(std::string message)]: the overload without a value. *)
Definition fail_msg (message : string) : Result T :=
  mkResult None false (Some message).

Section Converting.
(** The member templates take an argument of any type [TT] convertible to
    [T]; [convert] is that conversion, made where the argument initialises
    the [std::optional<T>] member or a [const T &] parameter.  [success] and
    [fail] above stand for the call at the converted value. *)
Context {TT : Type}.
Variable convert : TT -> T.

Definition successOnPred (v : TT) (message : string)
           (isSuccessPred : TT -> bool) : Result T :=
  if isSuccessPred v then success (convert v) else fail (convert v) message.

Definition successOnPredLazy (v : TT) (getErrorMessage : TT -> string)
           (isSuccessPred : TT -> bool) : Result T :=
  if isSuccessPred v then success (convert v)
  else fail (convert v) (getErrorMessage v).

(** [successOnPred(result, message, [](const T & res) { return res == 0; })]:
    the lambda receives the argument converted to [T]. *)
Definition successOnZero `{EqZero T} (v : TT) (message : string) : Result T :=
  successOnPred v message (fun res => eq_zero (convert res)).

(** [if (result == 0)]: the test is on the argument as it was passed. *)
Definition successOnZeroLazy `{EqZero TT} (v : TT)
           (getErrorMessage : TT -> string) : Result T :=
  if eq_zero v then success (convert v)
  else fail (convert v) (getErrorMessage v).

End Converting.

Definition isSuccess (r : Result T) : bool := resultSuccess r.

(** [operator bool() { return isSuccess(); }] *)
Definition to_bool (r : Result T) : bool := isSuccess r.

Definition has_value (r : Result T) : bool :=
  match result r with Some _ => true | None => false end.

(** [value() { return result.value(); }] *)
Definition value (r : Result T) : Access T :=
  match result r with
  | Some v => Got v
  | None => BadOptionalAccess
  end.

(** [operator*] and [operator->] both go through [value()]. *)
Definition deref (r : Result T) : Access T := value r.

(** [return errorMessage.value_or("(no error message)");] with return type
    [std::string_view]: the view is taken of the [std::string] that
    [value_or] returns by value, and that temporary is destroyed when the
    [return] statement ends. *)
Definition errorStr (r : Result T) : string_view :=
  view_of_temporary (value_or (errorMessage r) "(no error message)").

End ResultCarrier.

(* ===================================================================== *)
(** ** Control effects of the listener                                   *)
(* ===================================================================== *)

(** How a call can end: it returns, an exception leaves it, or the program
    is ended by [std::terminate] (an exception inside a [noexcept]
    function). *)
Inductive Outcome (E A : Type) : Type :=
| Normal (a : A)
| Thrown (e : E)
| Terminated.

Arguments Normal {E A} a.
Arguments Thrown {E A} e.
Arguments Terminated {E A}.

(** A computation over a mutable object of type [St] that may throw [E]. *)
Definition Eff (St E A : Type) : Type := St -> Outcome E A * St.

Section EffOps.
Context {St E : Type}.

Definition ret {A} (a : A) : Eff St E A := fun s => (Normal a, s).

Definition bind {A B} (m : Eff St E A) (k : A -> Eff St E B) : Eff St E B :=
  fun s =>
    match m s with
    | (Normal a, s') => k a s'
    | (Thrown e, s') => (Thrown e, s')
    | (Terminated, s') => (Terminated, s')
    end.

Definition throw {A} (e : E) : Eff St E A := fun s => (Thrown e, s).

Definition terminate {A} : Eff St E A := fun s => (Terminated, s).

(** A [const]-like call: reads the object, leaves it as it is. *)
Definition query {A} (f : St -> A) : Eff St E A := fun s => (Normal (f s), s).

(** A call that may change the object and returns a value. *)
Definition command {A} (f : St -> A * St) : Eff St E A :=
  fun s => let (a, s') := f s in (Normal a, s').

End EffOps.

Declare Scope eff_scope.
Delimit Scope eff_scope with eff.
Notation "x <- m ;; k" := (bind m (fun x => k))
  (at level 61, m at next level, right associativity) : eff_scope.
Notation "m ;; k" := (bind m (fun _ => k))
  (at level 61, right associativity) : eff_scope.
Local Open Scope eff_scope.

(* ===================================================================== *)
(** ** Stream insertion ([std::ostringstream])                           *)
(* ===================================================================== *)

(** The character for a digit value [0..9]. *)
Definition digit_char (d : N) : ascii := ascii_of_N (48 + d).

(** Decimal digits of [n], most significant first; [fuel] bounds the number
    of digits. *)
Fixpoint dec_aux (fuel : nat) (n : N) : string :=
  match fuel with
  | O => String (digit_char n) ""
  | S f =>
      if (n <? 10)%N then String (digit_char n) ""
      else dec_aux f (n / 10) ++ String (digit_char (n mod 10)) ""
  end.

(** What [operator<<] writes for an unsigned integer on a stream in its
    default state (base ten, no width, no fill). *)
Definition dec (n : N) : string := dec_aux (N.to_nat (N.size n)) n.

(** A freshly constructed [std::ostringstream] is its buffer. *)
Definition ostringstream : Type := string.

Definition str (os : ostringstream) : string := os.

(** The overloads of [operator<<] that the listener uses. *)
Class Insertable (A : Type) := insert : ostringstream -> A -> ostringstream.

#[global] Instance Insertable_string : Insertable string :=
  fun os s => os ++ s.

#[global] Instance Insertable_N : Insertable N :=
  fun os n => os ++ dec n.

Notation "os << x" := (insert os x) (at level 50, left associativity).

(** Reading a decimal numeral back: the value of a non-empty string of
    digits, [None] for anything else. *)
Definition digit_of (c : ascii) : option N :=
  let n := N_of_ascii c in
  if ((48 <=? n) && (n <=? 57))%N then Some (n - 48)%N else None.

Fixpoint parse_dec_aux (s : string) (acc : N) : option N :=
  match s with
  | EmptyString => Some acc
  | String c s' =>
      match digit_of c with
      | Some d => parse_dec_aux s' (10 * acc + d)%N
      | None => None
      end
  end.

Definition parse_dec (s : string) : option N :=
  match s with
  | EmptyString => None
  | _ => parse_dec_aux s 0%N
  end.

(** A numeral without a superfluous leading zero. *)
Definition no_leading_zero (s : string) : bool :=
  match s with
  | String c (String _ _) => negb (Ascii.eqb c "0"%char)
  | _ => true
  end.

(** [d] is the decimal numeral of [n]. *)
Definition decimal_of (n : N) (d : string) : Prop :=
  parse_dec d = Some n /\ no_leading_zero d = true.

(* ===================================================================== *)
(** ** JKAListener: data                                                  *)
(* ===================================================================== *)

(** The members of [JKAListener] that the functions below read: the server
    endpoint the listener is bound to. *)
Record JKAListener : Type := mkListener {
  serverAddr : string;
  serverPort : N
}.

(** What a [JKAListenerException] holds: the name of the step and the
    characters of the message. *)
Record JKAListenerException : Type := mkException {
  exn_step : string;
  exn_what : Chars
}.

(** [JKAListenerException(step, message)]: the step is always a string
    literal in the two files; the message arrives as a [std::string_view]
    and is read when the exception is built. *)
Definition newException (step : string) (message : string_view)
  : JKAListenerException :=
  mkException step (sv_read message).

Inductive PacketDirection : Type :=
| FROM_CLIENT
| FROM_SERVER
| NOT_RELATED.

(** [JKA::Utility::Span]: a view of [span_len] bytes at [span_off] in a
    buffer that somebody else owns. *)
Record Span : Type := mkSpan {
  span_base : list byte;
  span_off  : nat;
  span_len  : nat
}.

(** [Span(container)]: the view of a whole buffer. *)
Definition Span_of (buf : list byte) : Span :=
  mkSpan buf 0 (length buf).

(** [to_sv()]: the bytes the view covers. *)
Definition to_sv (s : Span) : list byte :=
  firstn (span_len s) (skipn (span_off s) (span_base s)).

(** [PcapPacket]: one captured frame. *)
Record PcapPacket : Type := mkPcapPacket {
  pkt_data : list byte
}.

Record Endpoint : Type := mkEndpoint {
  ep_addr : string;
  ep_port : N
}.

(** [SimpleUdpPacket]: the endpoints of a datagram and a view of its
    payload inside the frame it was parsed from. *)
Record SimpleUdpPacket : Type := mkUdp {
  udp_source      : Endpoint;
  udp_destination : Endpoint;
  udp_data        : Span
}.

(** [JKA::Protocol::RawPacket(std::string)]: owns its bytes. *)
Record RawPacket : Type := mkRawPacket {
  raw_data : list byte
}.

(** [std::string(udp.data.to_sv())]: a copy of the viewed bytes. *)
Definition string_of_sv (sv : list byte) : list byte := sv.

Definition serverEndpoint (L : JKAListener) : Endpoint :=
  mkEndpoint (serverAddr L) (serverPort L).

Definition Endpoint_eqb (a b : Endpoint) : bool :=
  String.eqb (ep_addr a) (ep_addr b) && N.eqb (ep_port a) (ep_port b).

(* ===================================================================== *)
(** ** JKAListener::createFilterStr                                       *)
(* ===================================================================== *)

Definition createFilterStr (L : JKAListener) : string :=
  let filter : ostringstream := "" in
  str (filter << "udp and ((dst " << serverAddr L
              << " and dst port " << serverPort L << ") or (src "
              << serverAddr L << " and src port " << serverPort L << "))").

(** The filter expression as the specification writes it, with [<A>] and
    [<P>] filled in. *)
Definition filter_template (A P : string) : string :=
  "udp and ((dst " ++ A ++ " and dst port " ++ P ++ ") or (src "
    ++ A ++ " and src port " ++ P ++ "))".

(* ===================================================================== *)
(** ** The capture adapter as the listener sees it                       *)
(* ===================================================================== *)

(** [PcapResult]: the adapter reports the integer code of the capture
    library in a [Result]. *)
Definition PcapResult : Type := Result Z.

(** Arguments of [Pcap::open]. *)
Record OpenParams : Type := mkOpenParams {
  open_device  : string;
  open_snaplen : Z;
  open_promisc : bool;
  open_timeout : Z
}.

(** The operations of [Pcap] that [JKAListener] calls.  The class itself is
    outside the two files; its behaviour is whatever an instance says. *)
Class PcapApi (Pcap : Type) : Type := {
  open : OpenParams -> Pcap -> PcapResult * Pcap;
  setFilter : string -> Pcap -> PcapResult * Pcap;
  getDatalink : Pcap -> Z;
  isDatalinkKnown : Pcap -> Z -> bool;
  getSupportedDatalinks : Pcap -> Result (list Z);
  setDatalink : Z -> Pcap -> PcapResult * Pcap
}.

(* ===================================================================== *)
(** ** JKAListener: start-up                                              *)
(* ===================================================================== *)

Section Startup.
Context {Pcap : Type} `{PcapApi Pcap}.

Definition throwOnResultFail {St : Type} (step : string) (res : PcapResult)
  : Eff St JKAListenerException unit :=
  if negb (to_bool res) then
    throw (newException step (errorStr res))
  else
    ret tt.

(** The [for] loop of [trySetKnownDatalink] over the supported datalinks,
    followed by the [throw] that is reached when the loop runs out. *)
Fixpoint trySetKnownDatalink_loop (dls : list Z)
  : Eff Pcap JKAListenerException unit :=
  match dls with
  | [] =>
      throw (newException "getting supported datalinks"
                          (literal "no supported datalinks"))
  | dl :: rest =>
      known <- query (fun pcapObj => isDatalinkKnown pcapObj dl) ;;
      if (known : bool) then
        res <- command (setDatalink dl) ;;
        throwOnResultFail "setting supported datalink" res
      else
        trySetKnownDatalink_loop rest
  end.

Definition trySetKnownDatalink : Eff Pcap JKAListenerException unit :=
  current <- query getDatalink ;;
  known <- query (fun pcapObj => isDatalinkKnown pcapObj current) ;;
  if (known : bool) then
    ret tt
  else
    supportedDatalinks <- query getSupportedDatalinks ;;
    if negb (to_bool supportedDatalinks) then
      throw (newException "getting supported datalinks"
                          (errorStr supportedDatalinks))
    else
      match deref supportedDatalinks with
      | Got dls => trySetKnownDatalink_loop dls
      | BadOptionalAccess => terminate
      end.

(** Modelled from the spec: the synchronous part of [start], which is not in
    the two files.  Section 4.4 has it acquire the capture adapter, negotiate
    the datalink and install the filter, in this order, before the loop is
    dispatched; section 7 has each of the three fail the start with the name
    of the step and the underlying diagnostic.  The names of the two steps
    that the source does not show are arguments. *)
Definition start (openStep filterStep : string)
           (L : JKAListener) (params : OpenParams)
  : Eff Pcap JKAListenerException unit :=
  opened <- command (open params) ;;
  throwOnResultFail openStep opened ;;
  trySetKnownDatalink ;;
  installed <- command (setFilter (createFilterStr L)) ;;
  throwOnResultFail filterStep installed.

End Startup.

(* ===================================================================== *)
(** ** JKAListener: the per-frame handler                                 *)
(* ===================================================================== *)

(** One invocation of a downstream sink, with the packet it was handed. *)
Inductive SinkCall : Type :=
| ClientSink (p : RawPacket)
| ServerSink (p : RawPacket).

Section PacketArrived.
(** What a sink may throw. *)
Variable SinkExn : Type.
(** [SimpleUdpPacket::fromRawIp], the UDP/IP framer. *)
Variable fromRawIp : Span -> option SimpleUdpPacket.
(** [JKAListener::getPacketDirection]. *)
Variable getPacketDirection : SimpleUdpPacket -> PacketDirection.
(** The two sinks: given the calls made so far and the packet, a sink
    returns ([None]) or throws. *)
Variable onClientPacket onServerPacket :
  list SinkCall -> RawPacket -> option SinkExn.

(** The state of the handler is the sequence of sink calls made so far. *)
Definition invoke (sink : list SinkCall -> RawPacket -> option SinkExn)
           (tag : RawPacket -> SinkCall) (p : RawPacket)
  : Eff (list SinkCall) SinkExn unit :=
  fun calls =>
    (match sink calls p with
     | None => Normal tt
     | Some e => Thrown e
     end, (calls ++ [tag p])%list).

Definition packetFromClient : RawPacket -> Eff (list SinkCall) SinkExn unit :=
  invoke onClientPacket ClientSink.

Definition packetFromServer : RawPacket -> Eff (list SinkCall) SinkExn unit :=
  invoke onServerPacket ServerSink.

Definition packetArrived (packet : PcapPacket)
  : Eff (list SinkCall) SinkExn unit :=
  match fromRawIp (Span_of (pkt_data packet)) with
  | None => ret tt  (* Invalid packet *)
  | Some udp =>
      match getPacketDirection udp with
      | FROM_CLIENT =>
          packetFromClient (mkRawPacket (string_of_sv (to_sv (udp_data udp))))
      | FROM_SERVER =>
          packetFromServer (mkRawPacket (string_of_sv (to_sv (udp_data udp))))
      | NOT_RELATED => ret tt
      end
  end.

End PacketArrived.

(** Modelled from the spec: [JKAListener::getPacketDirection], which is
    declared outside the two files.  Section 3: FROM_SERVER if the source
    equals the server endpoint, FROM_CLIENT if the destination equals it,
    NOT_RELATED otherwise; both matching is treated as NOT_RELATED. *)
Definition getPacketDirection (L : JKAListener) (udp : SimpleUdpPacket)
  : PacketDirection :=
  let fromServer := Endpoint_eqb (udp_source udp) (serverEndpoint L) in
  let toServer := Endpoint_eqb (udp_destination udp) (serverEndpoint L) in
  if fromServer && toServer then NOT_RELATED
  else if fromServer then FROM_SERVER
  else if toServer then FROM_CLIENT
  else NOT_RELATED.

(* ===================================================================== *)
(** ** The UDP/IP framer                                                  *)
(* ===================================================================== *)

(** The byte at index [i], as a number. *)
Definition u8 (bs : list byte) (i : nat) : option N :=
  option_map Byte.to_N (nth_error bs i).

(** Two bytes at [i] in network order. *)
Definition u16be (bs : list byte) (i : nat) : option N :=
  match u8 bs i, u8 bs (S i) with
  | Some hi, Some lo => Some (hi * 256 + lo)%N
  | _, _ => None
  end.

(** Four bytes at [i] as a dotted quad. *)
Definition ipv4_at (bs : list byte) (i : nat) : option string :=
  match u8 bs i, u8 bs (i + 1), u8 bs (i + 2), u8 bs (i + 3) with
  | Some a, Some b, Some c, Some d =>
      Some (dec a ++ "." ++ dec b ++ "." ++ dec c ++ "." ++ dec d)
  | _, _, _, _ => None
  end.

(** Modelled from the spec: [SimpleUdpPacket::fromRawIp], which is outside
    the two files.  Section 4.3: the span begins at an IPv4 header; reject
    other IP versions, locate the transport header by the IHL field, reject
    fragments (MF set or a non-zero fragment offset) and transports other
    than UDP, require the declared UDP length to fit in the span; the
    payload is what follows the 8-byte UDP header up to the declared length;
    checksums are not looked at.  It is the framer of the worked scenarios
    below; the theorems about [packetArrived] hold for any framer. *)
Definition fromRawIp_spec (s : Span) : option SimpleUdpPacket :=
  let bs := to_sv s in
  match u8 bs 0, u8 bs 6, u8 bs 7, u8 bs 9, ipv4_at bs 12, ipv4_at bs 16 with
  | Some vihl, Some flags, Some fragLo, Some proto, Some src, Some dst =>
      let version := N.shiftr vihl 4 in
      let ihl := N.land vihl 15 in
      let hdr := N.to_nat (4 * ihl) in
      if negb (version =? 4)%N || (ihl <? 5)%N then None
      else if N.testbit flags 5
              || negb (N.land flags 31 =? 0)%N || negb (fragLo =? 0)%N then None
      else if negb (proto =? 17)%N then None
      else
        match u16be bs hdr, u16be bs (hdr + 2), u16be bs (hdr + 4) with
        | Some sport, Some dport, Some ulen =>
            if (ulen <? 8)%N
               || (length bs <? hdr + N.to_nat ulen)%nat then None
            else
              Some (mkUdp (mkEndpoint src sport) (mkEndpoint dst dport)
                          (mkSpan (span_base s) (span_off s + hdr + 8)
                                  (N.to_nat ulen - 8)))
        | _, _, _ => None
        end
  | _, _, _, _, _, _ => None
  end.

(* ===================================================================== *)
(** ** Concrete collaborators for worked examples                        *)
(* ===================================================================== *)

Definition byte_of (n : N) : byte :=
  match Byte.of_N n with Some b => b | None => x00 end.

Definition bytes_of (l : list N) : list byte := map byte_of l.

Definition bytes_of_string (s : string) : list byte := list_byte_of_string s.

(** An IPv4 header without options followed by a UDP header and payload. *)
Definition ipv4_udp_frame (flagsFrag : N * N) (src dst : N * N * N * N)
           (sport dport : N) (payload : list byte) : list byte :=
  let ulen := (8 + N.of_nat (length payload))%N in
  let total := (20 + ulen)%N in
  let '(s1, s2, s3, s4) := src in
  let '(d1, d2, d3, d4) := dst in
  (bytes_of [ 69; 0; total / 256; total mod 256; 0; 0; fst flagsFrag;
              snd flagsFrag; 64; 17; 0; 0; s1; s2; s3; s4; d1; d2; d3; d4;
              sport / 256; sport mod 256; dport / 256; dport mod 256;
              ulen / 256; ulen mod 256; 0; 0 ]%N
   ++ payload)%list.

(** The listener of the end-to-end scenarios: server 192.168.1.10:29070. *)
Definition scenarioListener : JKAListener := mkListener "192.168.1.10" 29070.

Definition getstatusPayload : list byte :=
  (bytes_of [255; 255; 255; 255]%N ++ bytes_of_string "getstatus")%list.

Definition statusResponsePayload : list byte :=
  (bytes_of [255; 255; 255; 255]%N
   ++ bytes_of_string "statusResponse" ++ bytes_of [10]%N)%list.

(** Scenario 1: 10.0.0.5:50000 to the server. *)
Definition clientFrame : PcapPacket :=
  mkPcapPacket (ipv4_udp_frame (0, 0) (10, 0, 0, 5) (192, 168, 1, 10)
                               50000 29070 getstatusPayload)%N.

(** Scenario 2: the server to 10.0.0.5:50000. *)
Definition serverFrame : PcapPacket :=
  mkPcapPacket (ipv4_udp_frame (0, 0) (192, 168, 1, 10) (10, 0, 0, 5)
                               29070 50000 statusResponsePayload)%N.

(** Scenario 3: traffic between two other endpoints. *)
Definition unrelatedFrame : PcapPacket :=
  mkPcapPacket (ipv4_udp_frame (0, 0) (10, 0, 0, 5) (10, 0, 0, 7)
                               50000 27015 getstatusPayload)%N.

(** Scenario 4: a first fragment (MF set) addressed to the server. *)
Definition fragmentFrame : PcapPacket :=
  mkPcapPacket (ipv4_udp_frame (32, 0) (10, 0, 0, 5) (192, 168, 1, 10)
                               50000 29070 getstatusPayload)%N.

(** Sinks that always return. *)
Definition quietSink : list SinkCall -> RawPacket -> option unit :=
  fun _ _ => None.

(** The handler of the scenarios. *)
Definition scenarioHandler (packet : PcapPacket)
  : Eff (list SinkCall) unit unit :=
  packetArrived fromRawIp_spec (getPacketDirection scenarioListener)
                quietSink quietSink packet.

(** A scripted capture adapter: every answer is fixed in advance, and a
    successful [setDatalink] or [open] is recorded. *)
Record StubPcap : Type := mkStub {
  stub_isOpen    : bool;
  stub_current   : Z;
  stub_known     : list Z;
  stub_supported : Result (list Z);
  stub_open      : PcapResult;
  stub_set       : Z -> PcapResult;
  stub_filter    : string -> PcapResult
}.

Definition stub_with_current (p : StubPcap) (dl : Z) : StubPcap :=
  mkStub (stub_isOpen p) dl (stub_known p) (stub_supported p)
         (stub_open p) (stub_set p) (stub_filter p).

Definition stub_with_open (p : StubPcap) (b : bool) : StubPcap :=
  mkStub b (stub_current p) (stub_known p) (stub_supported p)
         (stub_open p) (stub_set p) (stub_filter p).

#[global] Instance StubPcapApi : PcapApi StubPcap := {
  open _ p :=
    (stub_open p, if isSuccess (stub_open p) then stub_with_open p true else p);
  setFilter f p := (stub_filter p f, p);
  getDatalink p := stub_current p;
  isDatalinkKnown p dl := existsb (Z.eqb dl) (stub_known p);
  getSupportedDatalinks p := stub_supported p;
  setDatalink dl p :=
    (stub_set p dl,
     if isSuccess (stub_set p dl) then stub_with_current p dl else p)
}.

Definition DLT_EN10MB : Z := 1.
Definition DLT_IEEE802_11 : Z := 105.
Definition DLT_USB : Z := 186.

(** An adapter on a link type the framer cannot strip, that lists Ethernet
    among its alternatives and accepts every request. *)
Definition stub_ok : StubPcap :=
  mkStub false DLT_USB [DLT_EN10MB]
         (success [DLT_IEEE802_11; DLT_EN10MB])
         (success 0%Z) (fun _ => success 0%Z) (fun _ => success 0%Z).

(** The same adapter, already on a known link type. *)
Definition stub_known_current : StubPcap := stub_with_current stub_ok DLT_EN10MB.

(** The same adapter, refusing to change its link type. *)
Definition stub_refusing : StubPcap :=
  mkStub false DLT_USB [DLT_EN10MB]
         (success [DLT_IEEE802_11; DLT_EN10MB])
         (success 0%Z) (fun _ => fail (-1)%Z "device refused")
         (fun _ => success 0%Z).

(** An adapter whose list of link types cannot be read. *)
Definition stub_no_list : StubPcap :=
  mkStub false DLT_USB [DLT_EN10MB]
         (fail_msg "permission denied")
         (success 0%Z) (fun _ => success 0%Z) (fun _ => success 0%Z).

(** An adapter that supports no link type the framer knows. *)
Definition stub_none_known : StubPcap :=
  mkStub false DLT_USB [DLT_EN10MB]
         (success [DLT_IEEE802_11; DLT_USB])
         (success 0%Z) (fun _ => success 0%Z) (fun _ => success 0%Z).

(** An adapter that cannot be opened. *)
Definition stub_no_open : StubPcap :=
  mkStub false DLT_USB [DLT_EN10MB]
         (success [DLT_EN10MB])
         (fail (-1)%Z "no such device") (fun _ => success 0%Z)
         (fun _ => success 0%Z).

(** An adapter that rejects the filter. *)
Definition stub_no_filter : StubPcap :=
  mkStub false DLT_EN10MB [DLT_EN10MB]
         (success [DLT_EN10MB])
         (success 0%Z) (fun _ => success 0%Z)
         (fun _ => fail (-1)%Z "syntax error").

(** What the framer makes of the frames of scenarios 1 and 2. *)
Definition clientUdp : SimpleUdpPacket :=
  mkUdp (mkEndpoint "10.0.0.5" 50000) (mkEndpoint "192.168.1.10" 29070)
        (mkSpan (pkt_data clientFrame) 28 13).

Definition serverUdp : SimpleUdpPacket :=
  mkUdp (mkEndpoint "192.168.1.10" 29070) (mkEndpoint "10.0.0.5" 50000)
        (mkSpan (pkt_data serverFrame) 28 19).

(** A degenerate datagram from the server to itself. *)
Definition loopbackUdp : SimpleUdpPacket :=
  mkUdp (mkEndpoint "192.168.1.10" 29070) (mkEndpoint "192.168.1.10" 29070)
        (mkSpan getstatusPayload 0 13).

Definition scenarioOpenParams : OpenParams :=
  mkOpenParams "eth0" 65535 true 100.

(* ===================================================================== *)
(** ** Vocabulary of the start-up properties                             *)
(* ===================================================================== *)

Section StartupVocabulary.
Context {Pcap : Type} `{PcapApi Pcap}.

(** The negotiation ends by an exception. *)
Definition negotiation_fails (p : Pcap) : Prop :=
  exists e p', trySetKnownDatalink p = (Thrown e, p').

(** The query for the supported datalinks reports a failure. *)
Definition query_fails (p : Pcap) : Prop :=
  isSuccess (getSupportedDatalinks p) = false.

(** No datalink of the supported list is known. *)
Definition none_known (p : Pcap) (dls : list Z) : Prop :=
  forall dl, In dl dls -> isDatalinkKnown p dl = false.

Definition no_listed_known (p : Pcap) : Prop :=
  forall dls, result (getSupportedDatalinks p) = Some dls -> none_known p dls.

(** The first known datalink of a list, in the order of the list. *)
Definition first_known (p : Pcap) (dls : list Z) : option Z :=
  find (isDatalinkKnown p) dls.

End StartupVocabulary.

(* ===================================================================== *)
(** ** Vocabulary of the further properties                              *)
(* ===================================================================== *)

Section ConstructedResults.
Context {T : Type} `{EqZero T}.

(** The results that the static member functions of [Result] return, for
    arguments of any type convertible to [T]. *)
Inductive Constructed : Result T -> Prop :=
| by_success (v : T) :
    Constructed (success v)
| by_fail (v : T) (message : string) :
    Constructed (fail v message)
| by_fail_msg (message : string) :
    Constructed (fail_msg message)
| by_successOnPred (TT : Type) (convert : TT -> T) (v : TT)
                   (message : string) (pred : TT -> bool) :
    Constructed (successOnPred convert v message pred)
| by_successOnPredLazy (TT : Type) (convert : TT -> T) (v : TT)
                       (getter : TT -> string) (pred : TT -> bool) :
    Constructed (successOnPredLazy convert v getter pred)
| by_successOnZero (TT : Type) (convert : TT -> T) (v : TT)
                   (message : string) :
    Constructed (successOnZero convert v message)
| by_successOnZeroLazy (TT : Type) (zero : EqZero TT) (convert : TT -> T)
                       (v : TT) (getter : TT -> string) :
    Constructed (successOnZeroLazy convert v getter).

End ConstructedResults.

(** An adapter together with the record of the [setDatalink] requests made
    to it; every operation is the one of the adapter underneath. *)
Record Logged (Pcap : Type) : Type := mkLogged {
  inner    : Pcap;
  setCalls : list Z
}.

Arguments mkLogged {Pcap} _ _.

#[global] Instance LoggedPcapApi {Pcap : Type} `{PcapApi Pcap}
  : PcapApi (Logged Pcap) := {
  open params lp :=
    (fst (open params (inner lp)),
     mkLogged (snd (open params (inner lp))) (setCalls lp));
  setFilter f lp :=
    (fst (setFilter f (inner lp)),
     mkLogged (snd (setFilter f (inner lp))) (setCalls lp));
  getDatalink lp := getDatalink (inner lp);
  isDatalinkKnown lp dl := isDatalinkKnown (inner lp) dl;
  getSupportedDatalinks lp := getSupportedDatalinks (inner lp);
  setDatalink dl lp :=
    (fst (setDatalink dl (inner lp)),
     mkLogged (snd (setDatalink dl (inner lp))) (setCalls lp ++ [dl])%list)
}.

Section AdapterLaws.
Context {Pcap : Type} `{PcapApi Pcap}.

(** After a successful [setDatalink(dl)] the adapter reports [dl]. *)
Definition set_installs : Prop :=
  forall (dl : Z) (p : Pcap),
    isSuccess (fst (setDatalink dl p)) = true ->
    getDatalink (snd (setDatalink dl p)) = dl.

(** Which datalinks are known is not changed by [setDatalink]. *)
Definition known_stable : Prop :=
  forall (dl dl' : Z) (p : Pcap),
    isDatalinkKnown (snd (setDatalink dl p)) dl' = isDatalinkKnown p dl'.

End AdapterLaws.

Section CaptureCallback.
Variable SinkExn : Type.
Variable fromRawIp : Span -> option SimpleUdpPacket.
Variable direction : SimpleUdpPacket -> PacketDirection.
Variable onClientPacket onServerPacket :
  list SinkCall -> RawPacket -> option SinkExn.

(** The callback that [startLoop] hands to the capture loop,
    [[this](const PcapPacket & packet) { packetArrived(packet); }], invoked
    on the frames of a capture one after the other. *)
Fixpoint packetsArrived (packets : list PcapPacket)
  : Eff (list SinkCall) SinkExn unit :=
  match packets with
  | [] => ret tt
  | packet :: rest =>
      packetArrived fromRawIp direction onClientPacket onServerPacket packet ;;
      packetsArrived rest
  end.

(** The sink call that a frame stands for: none, or one. *)
Definition frameCalls (packet : PcapPacket) : list SinkCall :=
  match fromRawIp (Span_of (pkt_data packet)) with
  | None => []
  | Some udp =>
      match direction udp with
      | FROM_CLIENT => [ClientSink (mkRawPacket (to_sv (udp_data udp)))]
      | FROM_SERVER => [ServerSink (mkRawPacket (to_sv (udp_data udp)))]
      | NOT_RELATED => []
      end
  end.

(** The sinks never throw. *)
Definition sinks_quiet : Prop :=
  forall calls p, onClientPacket calls p = None /\ onServerPacket calls p = None.

End CaptureCallback.

Definition DLT_RAW : Z := 12.

(** An adapter that lists two known link types, refuses the first and would
    accept the second. *)
Definition stub_picky : StubPcap :=
  mkStub false DLT_USB [DLT_EN10MB; DLT_RAW]
         (success [DLT_IEEE802_11; DLT_EN10MB; DLT_RAW])
         (success 0%Z)
         (fun dl => if (dl =? DLT_EN10MB)%Z then fail (-1)%Z "device refused"
                    else success 0%Z)
         (fun _ => success 0%Z).

(** An adapter whose query claims success and carries no list. *)
Definition stub_hollow : StubPcap :=
  mkStub false DLT_USB [DLT_EN10MB]
         (mkResult None true None)
         (success 0%Z) (fun _ => success 0%Z) (fun _ => success 0%Z).

(* ===================================================================== *)
(** ** Theorems: the result carrier                                       *)
(* ===================================================================== *)

Section ResultLaws.
Context {T : Type}.

Lemma has_value_result (r : Result T) :
  has_value r = true <-> exists v, result r = Some v.
Proof.
  unfold has_value. destruct (result r) as [v|]; split.
  - intros _. now exists v.
  - reflexivity.
  - discriminate.
  - intros [v Hv]. discriminate.
Qed.

Lemma success_not_fail (v w : T) (msg : string) : success v <> fail w msg.
Proof. unfold success, fail. intros Heq. inversion Heq. Qed.

(** C6 - Result laws: [success(v)] is a success, both [fail] overloads are
    failures, [fail(v, msg)] still carries [v], and the boolean conversion
    of any result is its [isSuccess()]. *)
Theorem result_laws (v : T) (msg : string) :
  isSuccess (success v) = true /\
  isSuccess (fail_msg (T:=T) msg) = false /\
  isSuccess (fail v msg) = false /\
  value (fail v msg) = Got v /\
  (forall r : Result T, to_bool r = isSuccess r).
Proof.
  repeat split.
Qed.

(** C7, the code at the failing input - the view that [errorStr] returns
    was taken of the sentinel ["(no error message)"] when nothing is stored,
    and of the stored message otherwise, but the string it views is gone
    when the caller receives it: nothing is known of the characters the
    caller reads, for [success(v)] as for any other result. *)
Theorem errorStr_dangles (v : T) :
  sv_chars (errorStr (success v)) = "(no error message)" /\
  (forall r : Result T,
      sv_live (errorStr r) = false /\ sv_read (errorStr r) = Indeterminate).
Proof.
  split; [reflexivity|]. intros r. split; reflexivity.
Qed.

(** What each constructor with a predicate returns. *)
Lemma successOnPred_cases (TT : Type) (convert : TT -> T) (v : TT)
      (msg : string) (pred : TT -> bool) :
  successOnPred convert v msg pred =
  if pred v then success (convert v) else fail (convert v) msg.
Proof. reflexivity. Qed.

(** C10 - [fail(msg)] holds no value, [success(v)] and [fail(v, msg)] hold
    [v]; [value()] returns the stored value exactly when [has_value()], and
    on a result without a value it takes the error branch of the
    underlying optional. *)
Theorem has_value_spec (v : T) (msg : string) :
  has_value (fail_msg (T:=T) msg) = false /\
  has_value (success v) = true /\
  has_value (fail v msg) = true /\
  value (success v) = Got v /\
  value (fail v msg) = Got v /\
  value (fail_msg (T:=T) msg) = BadOptionalAccess /\
  (forall r : Result T,
      has_value r = true -> exists w, result r = Some w /\ value r = Got w) /\
  (forall r : Result T,
      has_value r = false -> value r = BadOptionalAccess).
Proof.
  repeat split.
  - intros r Hr. apply has_value_result in Hr. destruct Hr as [w Hw].
    exists w. split; [assumption|]. unfold value. now rewrite Hw.
  - intros r Hr. unfold has_value in Hr. unfold value.
    destruct (result r); [discriminate|reflexivity].
Qed.

End ResultLaws.

(** C8, the code at the failing input - [successOnZero] tests for zero
    after the argument is converted to the payload type: the result is
    [success] exactly when the converted value is zero.  For
    [Result<int>::successOnZero(4294967296LL, msg)] the argument is not
    zero, yet the result is a success holding [0]; [successOnZeroLazy],
    which tests the argument as passed, returns a failure there. *)
Theorem successOnZero_after_conversion (TT : Type) (convert : TT -> Z)
        (v : TT) (msg : string) :
  (successOnZero convert v msg = success (convert v) <-> convert v = 0%Z) /\
  (successOnZero convert v msg = fail (convert v) msg <-> convert v <> 0%Z) /\
  (4294967296 <> 0)%Z /\
  successOnZero int_of_long_long 4294967296%Z msg = success 0%Z /\
  successOnZeroLazy int_of_long_long 4294967296%Z (fun _ => msg) =
  fail 0%Z msg.
Proof.
  split; [|split; [|split; [discriminate|split; reflexivity]]];
    unfold successOnZero, successOnPred, eq_zero, EqZero_Z;
    destruct (Z.eqb_spec (convert v) 0) as [Hz|Hz]; split; intros Hx;
      try reflexivity; try assumption; try contradiction;
        try discriminate Hx.
Qed.

Lemma has_value_spec_witness :
  has_value (fail 7%Z "partial") = true /\
  exists w, result (fail 7%Z "partial") = Some w /\
            value (fail 7%Z "partial") = Got w.
Proof.
  split; [reflexivity|].
  apply (proj1 (proj2 (proj2 (proj2 (proj2 (proj2
           (proj2 (has_value_spec 7%Z "partial")))))))).
  reflexivity.
Defined.

(* ===================================================================== *)
(** ** Theorems: decimal output and the filter expression                *)
(* ===================================================================== *)

Lemma digit_of_digit_char (d : N) :
  (d < 10)%N -> digit_of (digit_char d) = Some d.
Proof.
  intros Hd. unfold digit_of, digit_char.
  rewrite N_ascii_embedding by lia.
  replace (48 <=? 48 + d)%N with true by (symmetry; apply N.leb_le; lia).
  replace (48 + d <=? 57)%N with true by (symmetry; apply N.leb_le; lia).
  cbn [andb]. f_equal. lia.
Qed.

Lemma digit_char_nonzero (d : N) :
  (0 < d < 10)%N -> digit_char d <> "0"%char.
Proof.
  intros Hd Heq. apply (f_equal N_of_ascii) in Heq.
  unfold digit_char in Heq. rewrite N_ascii_embedding in Heq by lia.
  change (N_of_ascii "0"%char) with 48%N in Heq. lia.
Qed.

Lemma parse_dec_aux_app (s1 s2 : string) : forall acc,
  parse_dec_aux (s1 ++ s2) acc =
  match parse_dec_aux s1 acc with
  | Some a => parse_dec_aux s2 a
  | None => None
  end.
Proof.
  induction s1 as [|c s1 IH]; intros acc; simpl.
  - reflexivity.
  - destruct (digit_of c) as [d|]; [apply IH|reflexivity].
Qed.

Lemma tenth_fits (f : nat) (n : N) :
  (n < 2 ^ N.of_nat (S f))%N -> (n / 10 < 2 ^ N.of_nat f)%N.
Proof.
  intros Hn. apply N.Div0.div_lt_upper_bound.
  rewrite Nat2N.inj_succ, N.pow_succ_r in Hn by lia. lia.
Qed.

Lemma parse_dec_aux_dec_aux (fuel : nat) : forall n,
  (n < 2 ^ N.of_nat fuel)%N -> parse_dec_aux (dec_aux fuel n) 0 = Some n.
Proof.
  induction fuel as [|f IH]; intros n Hn.
  - simpl in Hn. assert (n = 0%N) by lia. subst n. reflexivity.
  - cbn [dec_aux]. destruct (N.ltb_spec n 10) as [Hlt|Hge].
    + cbn [parse_dec_aux]. rewrite digit_of_digit_char by assumption.
      f_equal.
    + rewrite parse_dec_aux_app, (IH (n / 10)%N) by now apply tenth_fits.
      cbn [parse_dec_aux].
      rewrite digit_of_digit_char by (apply N.mod_lt; lia).
      f_equal. symmetry. apply N.div_mod. lia.
Qed.

(** The first digit: there is one, and it is not a zero unless the number
    is. *)
Lemma dec_aux_head (fuel : nat) : forall n,
  (n < 2 ^ N.of_nat fuel)%N ->
  exists c rest, dec_aux fuel n = String c rest /\
                 (n <> 0%N -> c <> "0"%char) /\
                 no_leading_zero (String c rest) = true.
Proof.
  induction fuel as [|f IH]; intros n Hn.
  - simpl in Hn. exists (digit_char n), "". repeat split. lia.
  - cbn [dec_aux]. destruct (N.ltb_spec n 10) as [Hlt|Hge].
    + exists (digit_char n), "". repeat split.
      intros Hnz. apply digit_char_nonzero. lia.
    + destruct (IH (n / 10)%N (@tenth_fits f n Hn)) as (c & rest & Heq & Hc & _).
      assert (Hq : (n / 10 <> 0)%N).
      { intros H0. apply N.div_small_iff in H0; lia. }
      specialize (Hc Hq).
      exists c, (rest ++ String (digit_char (n mod 10)) "").
      rewrite Heq. split; [reflexivity|]. split; [intros _; exact Hc|].
      destruct rest; simpl; apply negb_true_iff, Ascii.eqb_neq; exact Hc.
Qed.

Lemma dec_fuel (n : N) : (n < 2 ^ N.of_nat (N.to_nat (N.size n)))%N.
Proof. rewrite N2Nat.id. apply N.size_gt. Qed.

(** What the stream writes for a number is its decimal numeral. *)
Lemma dec_decimal (n : N) : decimal_of n (dec n).
Proof.
  unfold decimal_of, dec.
  destruct (@dec_aux_head _ n (dec_fuel n)) as (c & rest & Heq & _ & Hlead).
  split.
  - unfold parse_dec.
    rewrite <- (@parse_dec_aux_dec_aux _ n (dec_fuel n)).
    rewrite Heq. reflexivity.
  - rewrite Heq. exact Hlead.
Qed.

Lemma append_nil_l (s : string) : "" ++ s = s.
Proof. reflexivity. Qed.

Lemma append_assoc (s1 s2 s3 : string) : (s1 ++ s2) ++ s3 = s1 ++ (s2 ++ s3).
Proof.
  induction s1 as [|c s1 IH]; simpl; [reflexivity|now rewrite IH].
Qed.

Lemma append_nil_r (s : string) : s ++ "" = s.
Proof. induction s as [|c s IH]; simpl; [reflexivity|now rewrite IH]. Qed.

(** Enough fuel is enough: more of it changes nothing. *)
Lemma dec_aux_fuel (f1 : nat) : forall f2 n,
  (n < 2 ^ N.of_nat f1)%N -> (n < 2 ^ N.of_nat f2)%N ->
  dec_aux f1 n = dec_aux f2 n.
Proof.
  induction f1 as [|f1 IH]; intros f2 n H1 H2.
  - simpl in H1. assert (n = 0%N) by lia. subst n.
    destruct f2; reflexivity.
  - destruct f2 as [|f2].
    + simpl in H2. assert (n = 0%N) by lia. subst n. reflexivity.
    + cbn [dec_aux]. destruct (n <? 10)%N; [reflexivity|].
      f_equal. apply IH; now apply tenth_fits.
Qed.

Lemma dec_aux_dec (f : nat) (n : N) :
  (n < 2 ^ N.of_nat f)%N -> dec_aux f n = dec n.
Proof. intros Hf. unfold dec. apply dec_aux_fuel; [exact Hf|apply dec_fuel]. Qed.

(** Appending a digit to the numeral of a positive number. *)
Lemma dec_snoc (q r : N) :
  (0 < q)%N -> (r < 10)%N ->
  dec (10 * q + r) = dec q ++ String (digit_char r) "".
Proof.
  intros Hq Hr. unfold dec at 1.
  pose proof (dec_fuel (10 * q + r)) as Hfuel.
  destruct (N.to_nat (N.size (10 * q + r))) as [|f].
  - change (2 ^ N.of_nat 0)%N with 1%N in Hfuel. lia.
  - cbn [dec_aux]. destruct (N.ltb_spec (10 * q + r) 10) as [Hlt|_]; [lia|].
    assert (Hdiv : ((10 * q + r) / 10 = q)%N).
    { symmetry. apply (N.div_unique _ 10 q r); [assumption|reflexivity]. }
    assert (Hmod : ((10 * q + r) mod 10 = r)%N).
    { symmetry. apply (N.mod_unique _ 10 q r); [assumption|reflexivity]. }
    apply tenth_fits in Hfuel. rewrite Hdiv in *. rewrite Hmod.
    now rewrite (dec_aux_dec _ Hfuel).
Qed.

Lemma dec_digit (r : N) : (r < 10)%N -> dec r = String (digit_char r) "".
Proof.
  intros Hr. unfold dec. destruct (N.to_nat (N.size r)); cbn [dec_aux].
  - reflexivity.
  - destruct (N.ltb_spec r 10); [reflexivity|lia].
Qed.

Lemma digit_of_inv (c : ascii) (d : N) :
  digit_of c = Some d -> (d < 10)%N /\ digit_char d = c.
Proof.
  unfold digit_of, digit_char.
  destruct (N.leb_spec 48 (N_of_ascii c)) as [Hlo|Hlo]; [|discriminate].
  destruct (N.leb_spec (N_of_ascii c) 57) as [Hhi|Hhi]; [|discriminate].
  cbn [andb]. intros Heq. injection Heq as <-. split; [lia|].
  replace (48 + (N_of_ascii c - 48))%N with (N_of_ascii c) by lia.
  apply ascii_N_embedding.
Qed.

(** Reading digits after a positive prefix extends the numeral of the
    prefix. *)
Lemma parse_dec_aux_dec (s : string) : forall acc n,
  (0 < acc)%N -> parse_dec_aux s acc = Some n -> dec n = dec acc ++ s.
Proof.
  induction s as [|c s IH]; intros acc n Hacc Hparse.
  - simpl in Hparse. injection Hparse as <-. now rewrite append_nil_r.
  - cbn [parse_dec_aux] in Hparse.
    destruct (digit_of c) as [d|] eqn:Hc; [|discriminate].
    destruct (digit_of_inv _ Hc) as [Hd <-].
    rewrite (IH (10 * acc + d)%N n) by (assumption || lia).
    rewrite dec_snoc by assumption.
    rewrite append_assoc. reflexivity.
Qed.

(** A number has one decimal numeral: the one the stream writes. *)
Lemma decimal_of_unique (n : N) (d : string) : decimal_of n d -> d = dec n.
Proof.
  intros [Hparse Hlead]. destruct d as [|c rest]; [discriminate|].
  unfold parse_dec in Hparse. cbn [parse_dec_aux] in Hparse.
  destruct (digit_of c) as [d0|] eqn:Hc; [|discriminate].
  destruct (digit_of_inv _ Hc) as [Hd0 Hchar].
  replace (10 * 0 + d0)%N with d0 in Hparse by lia.
  destruct rest as [|c' rest'].
  - simpl in Hparse. injection Hparse as <-.
    rewrite dec_digit by assumption. now rewrite Hchar.
  - cbn [no_leading_zero] in Hlead.
    apply negb_true_iff, Ascii.eqb_neq in Hlead.
    assert (Hpos : (0 < d0)%N).
    { destruct (N.eq_dec d0 0) as [->|Hnz]; [|lia].
      exfalso. apply Hlead. rewrite <- Hchar. reflexivity. }
    rewrite (parse_dec_aux_dec _ Hpos Hparse).
    rewrite dec_digit by assumption. now rewrite Hchar.
Qed.

(** C4 - the generated filter is the template
    [udp and ((dst <A> and dst port <P>) or (src <A> and src port <P>))]
    with the server address for [<A>] and the decimal numeral of the port
    for [<P>]; for server 1.2.3.4:29070 it is the string of scenario 5. *)
Theorem createFilterStr_spec (A : string) (P : N) :
  (exists d : string, decimal_of P d) /\
  (forall d : string,
      decimal_of P d ->
      createFilterStr (mkListener A P) = filter_template A d) /\
  createFilterStr (mkListener "1.2.3.4" 29070) =
  "udp and ((dst 1.2.3.4 and dst port 29070) or (src 1.2.3.4 and src port 29070))".
Proof.
  split; [|split].
  - exists (dec P). apply dec_decimal.
  - intros d Hd. apply decimal_of_unique in Hd. subst d.
    unfold createFilterStr, filter_template, str, insert,
           Insertable_string, Insertable_N.
    cbn [serverAddr serverPort].
    rewrite append_nil_l.
    repeat rewrite append_assoc.
    reflexivity.
  - vm_compute. reflexivity.
Qed.

Lemma createFilterStr_spec_witness :
  decimal_of 27960 "27960" /\
  createFilterStr (mkListener "10.0.0.7" 27960) =
  filter_template "10.0.0.7" "27960".
Proof.
  assert (Hd : decimal_of 27960 "27960") by (split; reflexivity).
  split; [exact Hd|].
  apply (proj1 (proj2 (createFilterStr_spec "10.0.0.7" 27960)) "27960" Hd).
Defined.

(* ===================================================================== *)
(** ** Theorems: direction of a datagram                                 *)
(* ===================================================================== *)

Lemma Endpoint_eqb_eq (a b : Endpoint) : Endpoint_eqb a b = true <-> a = b.
Proof.
  unfold Endpoint_eqb. destruct a as [aa ap], b as [ba bp]. simpl.
  rewrite andb_true_iff, String.eqb_eq, N.eqb_eq. split.
  - intros [-> ->]. reflexivity.
  - intros Heq. inversion Heq. split; reflexivity.
Qed.

Lemma Endpoint_eqb_neq (a b : Endpoint) : Endpoint_eqb a b = false <-> a <> b.
Proof.
  rewrite <- Endpoint_eqb_eq. destruct (Endpoint_eqb a b); split;
    intros Hx; try reflexivity; try discriminate.
  now elim Hx.
Qed.

(** C1 - the direction of a datagram is one of the three values, decided by
    the endpoints alone: FROM_SERVER when only the source is the server
    endpoint, FROM_CLIENT when only the destination is, NOT_RELATED when
    neither is, and also NOT_RELATED in the degenerate case where both
    are. *)
Theorem getPacketDirection_total (L : JKAListener) (udp : SimpleUdpPacket) :
  (getPacketDirection L udp = FROM_SERVER <->
   udp_source udp = serverEndpoint L /\
   udp_destination udp <> serverEndpoint L) /\
  (getPacketDirection L udp = FROM_CLIENT <->
   udp_destination udp = serverEndpoint L /\
   udp_source udp <> serverEndpoint L) /\
  (getPacketDirection L udp = NOT_RELATED <->
   (udp_source udp <> serverEndpoint L /\
    udp_destination udp <> serverEndpoint L) \/
   (udp_source udp = serverEndpoint L /\
    udp_destination udp = serverEndpoint L)).
Proof.
  unfold getPacketDirection.
  destruct (Endpoint_eqb (udp_source udp) (serverEndpoint L)) eqn:Hs;
    [apply Endpoint_eqb_eq in Hs | apply Endpoint_eqb_neq in Hs];
    (destruct (Endpoint_eqb (udp_destination udp) (serverEndpoint L)) eqn:Hd;
     [apply Endpoint_eqb_eq in Hd | apply Endpoint_eqb_neq in Hd]);
    cbn [andb];
    intuition (try discriminate; try congruence).
Qed.

Lemma getPacketDirection_total_witness :
  udp_source loopbackUdp = serverEndpoint scenarioListener /\
  udp_destination loopbackUdp = serverEndpoint scenarioListener /\
  getPacketDirection scenarioListener loopbackUdp = NOT_RELATED.
Proof.
  split; [reflexivity|]. split; [reflexivity|].
  apply (proj2 (proj2 (getPacketDirection_total scenarioListener loopbackUdp))).
  right. split; reflexivity.
Defined.

(* ===================================================================== *)
(** ** Theorems: the per-frame handler                                   *)
(* ===================================================================== *)

Section PacketArrivedFacts.
Variable SinkExn : Type.
Variable fromRawIp : Span -> option SimpleUdpPacket.
Variable direction : SimpleUdpPacket -> PacketDirection.
Variable onClientPacket onServerPacket :
  list SinkCall -> RawPacket -> option SinkExn.

(** Invoking a sink adds exactly that call to the calls made so far. *)
Lemma invoke_calls (sink : list SinkCall -> RawPacket -> option SinkExn)
      (tag : RawPacket -> SinkCall) (p : RawPacket) (calls : list SinkCall) :
  snd (invoke sink tag p calls) = (calls ++ [tag p])%list.
Proof. reflexivity. Qed.

(** C2 - on a frame that the framer parses, the handler invokes at most one
    sink: the client sink once and only it on FROM_CLIENT, the server sink
    once and only it on FROM_SERVER, none on NOT_RELATED; the packet handed
    over holds a copy of the bytes of the payload span. *)
Theorem packetArrived_dispatch (packet : PcapPacket) (udp : SimpleUdpPacket)
        (calls : list SinkCall) :
  fromRawIp (Span_of (pkt_data packet)) = Some udp ->
  exists new : list SinkCall,
    snd (packetArrived fromRawIp direction onClientPacket onServerPacket
                       packet calls) = (calls ++ new)%list /\
    length new <= 1 /\
    (direction udp = FROM_CLIENT ->
     exists p, new = [ClientSink p] /\ raw_data p = to_sv (udp_data udp)) /\
    (direction udp = FROM_SERVER ->
     exists p, new = [ServerSink p] /\ raw_data p = to_sv (udp_data udp)) /\
    (direction udp = NOT_RELATED -> new = []).
Proof.
  intros Hparse. unfold packetArrived. rewrite Hparse.
  destruct (direction udp) eqn:Hdir.
  - exists [ClientSink (mkRawPacket (to_sv (udp_data udp)))].
    split; [apply invoke_calls|]. split; [simpl; lia|].
    repeat split; try discriminate.
    intros _. eexists. split; reflexivity.
  - exists [ServerSink (mkRawPacket (to_sv (udp_data udp)))].
    split; [apply invoke_calls|]. split; [simpl; lia|].
    repeat split; try discriminate.
    intros _. eexists. split; reflexivity.
  - exists []. split; [simpl; now rewrite app_nil_r|]. split; [simpl; lia|].
    repeat split; discriminate.
Qed.

(** C3 - on a frame that the framer rejects, the handler returns normally
    and has invoked no sink. *)
Theorem packetArrived_invalid (packet : PcapPacket) (calls : list SinkCall) :
  fromRawIp (Span_of (pkt_data packet)) = None ->
  packetArrived fromRawIp direction onClientPacket onServerPacket
                packet calls = (Normal tt, calls).
Proof.
  intros Hparse. unfold packetArrived. rewrite Hparse. reflexivity.
Qed.

(** The handler itself raises nothing: an exception that leaves it comes
    from the one sink it invoked. *)
Lemma packetArrived_thrown (packet : PcapPacket) (calls calls' : list SinkCall)
      (e : SinkExn) :
  packetArrived fromRawIp direction onClientPacket onServerPacket
                packet calls = (Thrown e, calls') ->
  exists p, onClientPacket calls p = Some e \/ onServerPacket calls p = Some e.
Proof.
  unfold packetArrived.
  destruct (fromRawIp _) as [udp|]; [|discriminate].
  destruct (direction udp); try discriminate;
    unfold packetFromClient, packetFromServer, invoke;
    intros Hrun;
    exists (mkRawPacket (string_of_sv (to_sv (udp_data udp)))).
  - left. destruct (onClientPacket calls _) eqn:Hsink; inversion Hrun.
    subst. reflexivity.
  - right. destruct (onServerPacket calls _) eqn:Hsink; inversion Hrun.
    subst. reflexivity.
Qed.

End PacketArrivedFacts.

(** The framer on the frames of the scenarios. *)
Lemma fromRawIp_clientFrame :
  fromRawIp_spec (Span_of (pkt_data clientFrame)) = Some clientUdp.
Proof. vm_compute. reflexivity. Qed.

Lemma fromRawIp_fragmentFrame :
  fromRawIp_spec (Span_of (pkt_data fragmentFrame)) = None.
Proof. vm_compute. reflexivity. Qed.

Lemma packetArrived_dispatch_witness :
  fromRawIp_spec (Span_of (pkt_data clientFrame)) = Some clientUdp /\
  exists new : list SinkCall,
    snd (scenarioHandler clientFrame []) = ([] ++ new)%list /\
    length new <= 1 /\
    (getPacketDirection scenarioListener clientUdp = FROM_CLIENT ->
     exists p, new = [ClientSink p] /\ raw_data p = to_sv (udp_data clientUdp)) /\
    (getPacketDirection scenarioListener clientUdp = FROM_SERVER ->
     exists p, new = [ServerSink p] /\ raw_data p = to_sv (udp_data clientUdp)) /\
    (getPacketDirection scenarioListener clientUdp = NOT_RELATED -> new = []).
Proof.
  split; [vm_compute; reflexivity|].
  apply (@packetArrived_dispatch unit fromRawIp_spec
           (getPacketDirection scenarioListener) quietSink quietSink
           clientFrame clientUdp []).
  vm_compute. reflexivity.
Defined.

Lemma packetArrived_invalid_witness :
  fromRawIp_spec (Span_of (pkt_data fragmentFrame)) = None /\
  scenarioHandler fragmentFrame [] = (Normal tt, []).
Proof.
  split; [vm_compute; reflexivity|].
  apply (@packetArrived_invalid unit fromRawIp_spec
           (getPacketDirection scenarioListener) quietSink quietSink
           fragmentFrame []).
  vm_compute. reflexivity.
Defined.

(** End-to-end scenarios 1 to 4 of the specification. *)
Example scenario_client_to_server :
  scenarioHandler clientFrame [] =
  (Normal tt, [ClientSink (mkRawPacket getstatusPayload)]) /\
  length getstatusPayload = 13.
Proof. vm_compute. split; reflexivity. Qed.

Example scenario_server_to_client :
  scenarioHandler serverFrame [] =
  (Normal tt, [ServerSink (mkRawPacket statusResponsePayload)]).
Proof. vm_compute. reflexivity. Qed.

Example scenario_unrelated :
  scenarioHandler unrelatedFrame [] = (Normal tt, []).
Proof. vm_compute. reflexivity. Qed.

Example scenario_fragment :
  scenarioHandler fragmentFrame [] = (Normal tt, []).
Proof. vm_compute. reflexivity. Qed.

(* ===================================================================== *)
(** ** Theorems: datalink negotiation and start-up                       *)
(* ===================================================================== *)

Lemma throwOnResultFail_run (St : Type) (step : string) (res : PcapResult)
      (s : St) :
  throwOnResultFail step res s =
  (if isSuccess res then Normal tt
   else Thrown (newException step (errorStr res)), s).
Proof.
  unfold throwOnResultFail, to_bool. destruct (isSuccess res); reflexivity.
Qed.

Section Negotiation.
Context {Pcap : Type} `{PcapApi Pcap}.

Lemma first_known_none (p : Pcap) (dls : list Z) :
  first_known p dls = None <-> none_known p dls.
Proof.
  unfold first_known, none_known. split.
  - intros Hnone dl Hin. exact (find_none _ _ Hnone dl Hin).
  - intros Hall. induction dls as [|d dls IH]; [reflexivity|].
    simpl. rewrite (Hall d) by now left.
    apply IH. intros dl Hin. apply Hall. now right.
Qed.

Lemma first_known_some (p : Pcap) (dls : list Z) (dl : Z) :
  first_known p dls = Some dl -> In dl dls /\ isDatalinkKnown p dl = true.
Proof. unfold first_known. apply find_some. Qed.

(** The first known datalink is preceded by unknown ones only. *)
Lemma first_known_order (p : Pcap) (dls : list Z) (dl : Z) :
  first_known p dls = Some dl ->
  exists before after,
    dls = (before ++ dl :: after)%list /\ none_known p before.
Proof.
  unfold first_known, none_known.
  induction dls as [|d dls IH]; simpl; [discriminate|].
  destruct (isDatalinkKnown p d) eqn:Hd.
  - intros Heq. inversion Heq. subst d.
    exists [], dls. split; [reflexivity|]. intros x [].
  - intros Hfind. destruct (IH Hfind) as (before & after & Heq & Hnone).
    exists (d :: before), after. split; [now rewrite Heq|].
    intros x [<-|Hin]; [assumption|now apply Hnone].
Qed.

(** The loop installs the first known datalink of the list, and throws if
    the adapter refuses it or if there is none. *)
Lemma trySetKnownDatalink_loop_run (dls : list Z) (p : Pcap) :
  trySetKnownDatalink_loop dls p =
  match first_known p dls with
  | Some dl =>
      (if isSuccess (fst (setDatalink dl p)) then Normal tt
       else Thrown (newException "setting supported datalink"
                                 (errorStr (fst (setDatalink dl p)))),
       snd (setDatalink dl p))
  | None =>
      (Thrown (newException "getting supported datalinks"
                            (literal "no supported datalinks")), p)
  end.
Proof.
  unfold first_known. induction dls as [|d dls IH]; [reflexivity|].
  cbn [trySetKnownDatalink_loop find]. unfold bind at 1, query at 1.
  destruct (isDatalinkKnown p d).
  - unfold bind, command. destruct (setDatalink d p) as [res p'].
    cbn [fst snd]. apply throwOnResultFail_run.
  - exact IH.
Qed.

Lemma trySetKnownDatalink_run (p : Pcap) :
  trySetKnownDatalink p =
  if isDatalinkKnown p (getDatalink p) then (Normal tt, p)
  else if isSuccess (getSupportedDatalinks p) then
    match result (getSupportedDatalinks p) with
    | Some dls => trySetKnownDatalink_loop dls p
    | None => (Terminated, p)
    end
  else
    (Thrown (newException "getting supported datalinks"
                          (errorStr (getSupportedDatalinks p))), p).
Proof.
  unfold trySetKnownDatalink, bind, query, to_bool, deref, value.
  destruct (isDatalinkKnown p (getDatalink p)); [reflexivity|].
  destruct (isSuccess (getSupportedDatalinks p)); cbn [negb]; [|reflexivity].
  destruct (result (getSupportedDatalinks p)); reflexivity.
Qed.

(** What is known of an exception that leaves the negotiation: its step,
    and where the message is a literal, its message. *)
Lemma trySetKnownDatalink_thrown (p p' : Pcap) (e : JKAListenerException) :
  trySetKnownDatalink p = (Thrown e, p') ->
  isDatalinkKnown p (getDatalink p) = false /\
  ((query_fails p /\ exn_step e = "getting supported datalinks" /\ p' = p) \/
   (isSuccess (getSupportedDatalinks p) = true /\
    exists dls, result (getSupportedDatalinks p) = Some dls /\
      ((none_known p dls /\
        e = mkException "getting supported datalinks"
                        (Known "no supported datalinks") /\ p' = p) \/
       (exists dl, first_known p dls = Some dl /\
          isSuccess (fst (setDatalink dl p)) = false /\
          exn_step e = "setting supported datalink" /\
          p' = snd (setDatalink dl p))))).
Proof.
  rewrite trySetKnownDatalink_run. unfold query_fails.
  destruct (isDatalinkKnown p (getDatalink p)); [discriminate|].
  destruct (isSuccess (getSupportedDatalinks p)).
  2:{ intros Hrun. injection Hrun as <- <-. split; [reflexivity|].
      left. repeat split. }
  destruct (result (getSupportedDatalinks p)) as [dls|]; [|discriminate].
  rewrite trySetKnownDatalink_loop_run.
  destruct (first_known p dls) as [dl|] eqn:Hfirst.
  - destruct (isSuccess (fst (setDatalink dl p))) eqn:Hset; [discriminate|].
    intros Hrun. injection Hrun as <- <-. split; [reflexivity|].
    right. split; [reflexivity|]. exists dls. split; [reflexivity|].
    right. exists dl. repeat split; assumption.
  - intros Hrun. injection Hrun as <- <-. split; [reflexivity|].
    right. split; [reflexivity|]. exists dls. split; [reflexivity|].
    left. split; [exact (proj1 (first_known_none p dls) Hfirst)|].
    split; reflexivity.
Qed.

(** When the negotiation throws. *)
Lemma negotiation_fails_iff (p : Pcap) :
  negotiation_fails p <->
  isDatalinkKnown p (getDatalink p) = false /\
  (query_fails p \/
   (isSuccess (getSupportedDatalinks p) = true /\
    exists dls, result (getSupportedDatalinks p) = Some dls /\
      (none_known p dls \/
       exists dl, first_known p dls = Some dl /\
                  isSuccess (fst (setDatalink dl p)) = false))).
Proof.
  split.
  - intros (e & p' & Hrun).
    destruct (@trySetKnownDatalink_thrown p p' e Hrun)
      as [Hcur [[Hq _]|[Hq (dls & Hdls & [[Hnone _]|(dl & Hdl & Hset & _)])]]];
      (split; [exact Hcur|]).
    + now left.
    + right. split; [exact Hq|]. exists dls. split; [exact Hdls|]. now left.
    + right. split; [exact Hq|]. exists dls. split; [exact Hdls|].
      right. now exists dl.
  - unfold negotiation_fails, query_fails.
    rewrite trySetKnownDatalink_run.
    intros [Hcur [Hq|[Hq (dls & Hdls & Hcase)]]]; rewrite Hcur, Hq.
    + eexists. eexists. reflexivity.
    + rewrite Hdls, trySetKnownDatalink_loop_run.
      destruct Hcase as [Hnone|(dl & Hdl & Hset)].
      * apply first_known_none in Hnone. rewrite Hnone.
        eexists. eexists. reflexivity.
      * rewrite Hdl, Hset. eexists. eexists. reflexivity.
Qed.

(** C5, as amended - a known current datalink is kept and the negotiation
    succeeds without a change; otherwise the first known datalink of the
    supported list, in the adapter's order, is requested and the
    negotiation succeeds when the adapter installs it; the negotiation
    throws exactly when the current datalink is not known and either the
    query fails, or no listed datalink is known, or the adapter refuses the
    first known one.  The exception names the step "getting supported
    datalinks" in the first two cases and "setting supported datalink" in
    the third, and its message is "no supported datalinks" when no listed
    datalink is known. *)
Theorem trySetKnownDatalink_spec (p : Pcap) :
  (isDatalinkKnown p (getDatalink p) = true ->
   trySetKnownDatalink p = (Normal tt, p)) /\
  (forall dls dl,
      isDatalinkKnown p (getDatalink p) = false ->
      isSuccess (getSupportedDatalinks p) = true ->
      result (getSupportedDatalinks p) = Some dls ->
      first_known p dls = Some dl ->
      isSuccess (fst (setDatalink dl p)) = true ->
      trySetKnownDatalink p = (Normal tt, snd (setDatalink dl p))) /\
  (negotiation_fails p <->
   isDatalinkKnown p (getDatalink p) = false /\
   (query_fails p \/
    (isSuccess (getSupportedDatalinks p) = true /\
     exists dls, result (getSupportedDatalinks p) = Some dls /\
       (none_known p dls \/
        exists dl, first_known p dls = Some dl /\
                   isSuccess (fst (setDatalink dl p)) = false)))) /\
  (forall e p',
      trySetKnownDatalink p = (Thrown e, p') ->
      (query_fails p /\ exn_step e = "getting supported datalinks") \/
      (isSuccess (getSupportedDatalinks p) = true /\
       exists dls, result (getSupportedDatalinks p) = Some dls /\
         ((none_known p dls /\
           e = mkException "getting supported datalinks"
                           (Known "no supported datalinks")) \/
          (exists dl, first_known p dls = Some dl /\
             isSuccess (fst (setDatalink dl p)) = false /\
             exn_step e = "setting supported datalink")))).
Proof.
  split; [|split; [|split]].
  - intros Hknown. rewrite trySetKnownDatalink_run, Hknown. reflexivity.
  - intros dls dl Hcur Hquery Hdls Hfirst Hset.
    rewrite trySetKnownDatalink_run, Hcur, Hquery, Hdls.
    rewrite trySetKnownDatalink_loop_run, Hfirst, Hset. reflexivity.
  - apply negotiation_fails_iff.
  - intros e p' Hrun.
    destruct (@trySetKnownDatalink_thrown p p' e Hrun)
      as [_ [[Hq [Hstep _]]
            |[Hq (dls & Hdls & [[Hnone [He _]]|(dl & Hdl & Hset & Hstep & _)])]]].
    + left. now split.
    + right. split; [exact Hq|]. exists dls. split; [exact Hdls|].
      left. now split.
    + right. split; [exact Hq|]. exists dls. split; [exact Hdls|].
      right. exists dl. repeat split; assumption.
Qed.

End Negotiation.

(** C5, as stated, fails: an adapter that lists a known datalink and
    refuses to install it makes the negotiation throw, at the step "setting
    supported datalink", although the query succeeded and a listed datalink
    is known. *)
Lemma trySetKnownDatalink_fails_otherwise :
  ~ (negotiation_fails stub_refusing <->
     no_listed_known stub_refusing \/ query_fails stub_refusing) /\
  exists e,
    trySetKnownDatalink stub_refusing = (Thrown e, stub_refusing) /\
    exn_step e = "setting supported datalink".
Proof.
  split; [|eexists; split; reflexivity].
  intros [Hfwd _].
  destruct Hfwd as [Hnone|Hquery].
  - eexists. eexists. reflexivity.
  - specialize (Hnone [DLT_IEEE802_11; DLT_EN10MB] eq_refl DLT_EN10MB).
    assert (Hin : In DLT_EN10MB [DLT_IEEE802_11; DLT_EN10MB])
      by (right; left; reflexivity).
    specialize (Hnone Hin). discriminate Hnone.
  - discriminate Hquery.
Qed.

Lemma trySetKnownDatalink_spec_witness :
  isDatalinkKnown stub_ok (getDatalink stub_ok) = false /\
  first_known stub_ok [DLT_IEEE802_11; DLT_EN10MB] = Some DLT_EN10MB /\
  trySetKnownDatalink stub_ok =
  (Normal tt, snd (setDatalink DLT_EN10MB stub_ok)).
Proof.
  split; [reflexivity|]. split; [reflexivity|].
  apply (proj1 (proj2 (trySetKnownDatalink_spec stub_ok))
           [DLT_IEEE802_11; DLT_EN10MB] DLT_EN10MB); reflexivity.
Defined.

(** C9, the code at the failing input - when a start-up step reports a
    failure, the exception that [throwOnResultFail] throws names the step,
    but its message is read through the view that [errorStr] returns, whose
    string is gone: the diagnostic of the failing operation is not carried,
    whatever it was. *)
Theorem throwOnResultFail_diagnostic_lost (St : Type) (step : string)
        (res : PcapResult) (s : St) :
  isSuccess res = false ->
  throwOnResultFail step res s = (Thrown (mkException step Indeterminate), s).
Proof.
  intros Hfail. rewrite throwOnResultFail_run, Hfail. reflexivity.
Qed.

Lemma throwOnResultFail_diagnostic_lost_witness :
  isSuccess (fail (-1)%Z "syntax error") = false /\
  throwOnResultFail "setting filter" (fail (-1)%Z "syntax error") stub_ok =
  (Thrown (mkException "setting filter" Indeterminate), stub_ok).
Proof.
  split; [reflexivity|].
  apply (@throwOnResultFail_diagnostic_lost StubPcap "setting filter"
           (fail (-1)%Z "syntax error") stub_ok).
  reflexivity.
Defined.

Section StartupFacts.
Context {Pcap : Type} `{PcapApi Pcap}.
Variables openStep filterStep : string.
Variable L : JKAListener.
Variable params : OpenParams.

Lemma start_run (p : Pcap) :
  start openStep filterStep L params p =
  if isSuccess (fst (open params p)) then
    match trySetKnownDatalink (snd (open params p)) with
    | (Normal _, p2) =>
        (if isSuccess (fst (setFilter (createFilterStr L) p2)) then Normal tt
         else Thrown (newException filterStep
                        (errorStr (fst (setFilter (createFilterStr L) p2)))),
         snd (setFilter (createFilterStr L) p2))
    | (Thrown e, p2) => (Thrown e, p2)
    | (Terminated, p2) => (Terminated, p2)
    end
  else
    (Thrown (newException openStep (errorStr (fst (open params p)))),
     snd (open params p)).
Proof.
  unfold start. unfold bind at 1, command at 1.
  destruct (open params p) as [r1 p1]. cbn [fst snd].
  unfold bind at 1. rewrite throwOnResultFail_run.
  destruct (isSuccess r1); [|reflexivity].
  unfold bind at 1.
  destruct (trySetKnownDatalink p1) as [[[]|e|] p2]; try reflexivity.
  unfold bind, command.
  destruct (setFilter (createFilterStr L) p2) as [r3 p3]. cbn [fst snd].
  apply throwOnResultFail_run.
Qed.

(** The same loss at the query for the supported datalinks. *)
Lemma trySetKnownDatalink_query_diagnostic_lost (p : Pcap) :
  isDatalinkKnown p (getDatalink p) = false ->
  query_fails p ->
  trySetKnownDatalink p =
  (Thrown (mkException "getting supported datalinks" Indeterminate), p).
Proof.
  unfold query_fails. intros Hcur Hq.
  rewrite trySetKnownDatalink_run, Hcur, Hq. reflexivity.
Qed.

(** A start that does not throw went through all three steps. *)
Lemma start_normal (p p' : Pcap) :
  start openStep filterStep L params p = (Normal tt, p') ->
  isSuccess (fst (open params p)) = true /\
  exists p2,
    trySetKnownDatalink (snd (open params p)) = (Normal tt, p2) /\
    isSuccess (fst (setFilter (createFilterStr L) p2)) = true /\
    p' = snd (setFilter (createFilterStr L) p2).
Proof.
  rewrite start_run.
  destruct (isSuccess (fst (open params p))); [|discriminate].
  destruct (trySetKnownDatalink (snd (open params p)))
    as [[[]|e'|] p2]; try discriminate.
  destruct (isSuccess (fst (setFilter (createFilterStr L) p2))) eqn:Hfilter;
    [|discriminate].
  intros Hrun. injection Hrun as Hp. split; [reflexivity|].
  exists p2. repeat split; [assumption|now symmetry].
Qed.

End StartupFacts.

(** The three kinds of start-up error on scripted adapters. *)
Example start_open_failure :
  start "opening capture" "setting filter" scenarioListener
        scenarioOpenParams stub_no_open =
  (Thrown (mkException "opening capture" Indeterminate), stub_no_open).
Proof. reflexivity. Qed.

Example start_negotiation_failure :
  fst (start "opening capture" "setting filter" scenarioListener
             scenarioOpenParams stub_none_known) =
  Thrown (mkException "getting supported datalinks"
                      (Known "no supported datalinks")).
Proof. reflexivity. Qed.

Example start_filter_failure :
  fst (start "opening capture" "setting filter" scenarioListener
             scenarioOpenParams stub_no_filter) =
  Thrown (mkException "setting filter" Indeterminate).
Proof. reflexivity. Qed.

Example start_succeeds :
  fst (start "opening capture" "setting filter" scenarioListener
             scenarioOpenParams stub_ok) = Normal tt /\
  getDatalink (snd (start "opening capture" "setting filter" scenarioListener
                          scenarioOpenParams stub_ok)) = DLT_EN10MB.
Proof. split; reflexivity. Qed.

(* ===================================================================== *)
(** ** Further properties: the result carrier                            *)
(* ===================================================================== *)

Section ConstructedFacts.
Context {T : Type} `{EqZero T}.

(** Every convenience constructor returns what [success] or the
    two-argument [fail] returns. *)
Lemma Constructed_base (r : Result T) :
  Constructed r ->
  (exists v, r = success v) \/
  (exists v message, r = fail v message) \/
  (exists message, r = fail_msg message).
Proof.
  intros Hr.
  destruct Hr as [v|v m|m|TT conv v m pred|TT conv v g pred|TT conv v m
                 |TT zero conv v g].
  - left. now exists v.
  - right. left. now exists v, m.
  - right. right. now exists m.
  - unfold successOnPred. destruct (pred v).
    + left. now exists (conv v).
    + right. left. now exists (conv v), m.
  - unfold successOnPredLazy. destruct (pred v).
    + left. now exists (conv v).
    + right. left. now exists (conv v), (g v).
  - unfold successOnZero, successOnPred. destruct (eq_zero (conv v)).
    + left. now exists (conv v).
    + right. left. now exists (conv v), m.
  - unfold successOnZeroLazy. destruct (eq_zero v).
    + left. now exists (conv v).
    + right. left. now exists (conv v), (g v).
Qed.

(** X1 - a result returned by any static constructor of [Result] is a
    success exactly when it stores no message; a success holds a value, so
    reading it never takes the error branch; a failure stores a message. *)
Theorem Constructed_invariant (r : Result T) :
  Constructed r ->
  (isSuccess r = true <-> errorMessage r = None) /\
  (isSuccess r = true -> exists v, value r = Got v) /\
  (isSuccess r = false -> exists message, errorMessage r = Some message).
Proof.
  intros Hr.
  destruct (Constructed_base Hr) as [[v ->]|[(v & m & ->)|[m ->]]];
    cbn; repeat split; intros Hx; try discriminate Hx; try reflexivity.
  - now exists v.
  - now exists m.
  - now exists m.
Qed.

(** X2 - [successOnPredLazy] agrees with [successOnPred] at the message
    that the getter computes from the argument.  The two constructors that
    test for zero agree exactly when the zero test has the same answer
    before and after the conversion of the argument: [successOnZeroLazy]
    tests the argument as passed, [successOnZero] the converted value. *)
Theorem lazy_constructors_agree (TT : Type) (zero : EqZero TT)
        (convert : TT -> T) (v : TT) (getter : TT -> string)
        (pred : TT -> bool) :
  successOnPredLazy convert v getter pred =
  successOnPred convert v (getter v) pred /\
  (successOnZeroLazy convert v getter = successOnZero convert v (getter v) <->
   eq_zero v = eq_zero (convert v)).
Proof.
  split; [reflexivity|].
  unfold successOnZeroLazy, successOnZero, successOnPred.
  destruct (eq_zero v), (eq_zero (convert v)); split; intros Hx;
    try reflexivity; try discriminate Hx.
Qed.

End ConstructedFacts.

Lemma Constructed_invariant_witness :
  Constructed (successOnZero int_of_long_long 5%Z "capture error") /\
  exists message,
    errorMessage (successOnZero int_of_long_long 5%Z "capture error") =
    Some message.
Proof.
  assert (Hr : Constructed (successOnZero int_of_long_long 5%Z "capture error"))
    by apply by_successOnZero.
  split; [exact Hr|].
  apply (proj2 (proj2 (Constructed_invariant Hr))). reflexivity.
Defined.

(* ===================================================================== *)
(** ** Further properties: start-up                                      *)
(* ===================================================================== *)

(** X3 - checking the result made from a return code: when the code, as
    converted to the payload type, is [0] the check returns and leaves the
    object alone; otherwise it throws an exception that names the step, and
    leaves the object alone. *)
Theorem throwOnResultFail_successOnZero (St TT : Type) (convert : TT -> Z)
        (step message : string) (code : TT) (s : St) :
  (convert code = 0%Z ->
   throwOnResultFail step (successOnZero convert code message) s =
   (Normal tt, s)) /\
  (convert code <> 0%Z ->
   exists e,
     throwOnResultFail step (successOnZero convert code message) s =
     (Thrown e, s) /\ exn_step e = step).
Proof.
  rewrite throwOnResultFail_run.
  unfold successOnZero, successOnPred, eq_zero, EqZero_Z.
  destruct (Z.eqb_spec (convert code) 0) as [Hz|Hz]; split; intros Hx;
    try contradiction; try reflexivity.
  eexists. split; reflexivity.
Qed.

Lemma throwOnResultFail_successOnZero_witness :
  (id (-1) <> 0)%Z /\
  exists e,
    throwOnResultFail "setting filter"
                      (successOnZero id (-1)%Z "syntax error") stub_ok =
    (Thrown e, stub_ok) /\ exn_step e = "setting filter".
Proof.
  assert (Hne : (id (-1) <> 0)%Z) by discriminate.
  split; [exact Hne|].
  apply (proj2 (@throwOnResultFail_successOnZero StubPcap Z id
                  "setting filter" "syntax error" (-1)%Z stub_ok) Hne).
Defined.

Section NegotiationFacts.
Context {Pcap : Type} `{PcapApi Pcap}.

Lemma first_known_skip (p : Pcap) (before rest : list Z) :
  none_known p before ->
  first_known p (before ++ rest) = first_known p rest.
Proof.
  unfold first_known, none_known. induction before as [|d before IH];
    intros Hnone; [reflexivity|].
  simpl. rewrite (Hnone d) by now left.
  apply IH. intros dl Hin. apply Hnone. now right.
Qed.

(** X5 - only the first known datalink of the list is ever requested: what
    follows it in the list has no influence, so a refusal of the first
    known datalink ends the negotiation even when a later one would have
    been accepted. *)
Theorem trySetKnownDatalink_loop_first_only (p : Pcap)
        (before after : list Z) (dl : Z) :
  none_known p before ->
  isDatalinkKnown p dl = true ->
  trySetKnownDatalink_loop (before ++ dl :: after) p =
  trySetKnownDatalink_loop [dl] p.
Proof.
  intros Hnone Hknown.
  rewrite !trySetKnownDatalink_loop_run.
  rewrite first_known_skip by assumption.
  unfold first_known. simpl. rewrite Hknown. reflexivity.
Qed.

(** X6 - a negotiation asks for a change of datalink at most once, never
    when the current datalink is known, and only for the first known
    datalink of the supported list; recording the requests changes neither
    the outcome nor the adapter. *)
Theorem trySetKnownDatalink_requests (lp : Logged Pcap) :
  fst (trySetKnownDatalink lp) = fst (trySetKnownDatalink (inner lp)) /\
  inner (snd (trySetKnownDatalink lp)) = snd (trySetKnownDatalink (inner lp)) /\
  (setCalls (snd (trySetKnownDatalink lp)) = setCalls lp \/
   exists dls dl,
     isDatalinkKnown (inner lp) (getDatalink (inner lp)) = false /\
     result (getSupportedDatalinks (inner lp)) = Some dls /\
     first_known (inner lp) dls = Some dl /\
     setCalls (snd (trySetKnownDatalink lp)) = (setCalls lp ++ [dl])%list).
Proof.
  rewrite (trySetKnownDatalink_run lp), (trySetKnownDatalink_run (inner lp)).
  change (getDatalink lp) with (getDatalink (inner lp)).
  change (isDatalinkKnown lp) with (isDatalinkKnown (inner lp)).
  change (getSupportedDatalinks lp) with (getSupportedDatalinks (inner lp)).
  destruct (isDatalinkKnown (inner lp) (getDatalink (inner lp))) eqn:Hcur.
  { repeat split. now left. }
  destruct (isSuccess (getSupportedDatalinks (inner lp))).
  2:{ repeat split. now left. }
  destruct (result (getSupportedDatalinks (inner lp))) as [dls|] eqn:Hdls.
  2:{ repeat split. now left. }
  rewrite (trySetKnownDatalink_loop_run dls lp),
          (trySetKnownDatalink_loop_run dls (inner lp)).
  change (first_known lp dls) with (first_known (inner lp) dls).
  destruct (first_known (inner lp) dls) as [dl|] eqn:Hfirst.
  - cbn [fst snd setDatalink LoggedPcapApi inner setCalls].
    repeat split. right. exists dls, dl. repeat split. exact Hfirst.
  - repeat split. now left.
Qed.

(** X7 - on an adapter that reports the datalink it was last set to, and
    whose set of known datalinks does not change, a negotiation that
    returns leaves the adapter on a known datalink, and negotiating again
    changes nothing. *)
Theorem trySetKnownDatalink_settles (p p' : Pcap) :
  set_installs ->
  known_stable ->
  trySetKnownDatalink p = (Normal tt, p') ->
  isDatalinkKnown p' (getDatalink p') = true /\
  trySetKnownDatalink p' = (Normal tt, p').
Proof.
  intros Hset Hstable Hrun.
  assert (Hknown : isDatalinkKnown p' (getDatalink p') = true).
  { rewrite trySetKnownDatalink_run in Hrun.
    destruct (isDatalinkKnown p (getDatalink p)) eqn:Hcur.
    { injection Hrun as <-. exact Hcur. }
    destruct (isSuccess (getSupportedDatalinks p)); [|discriminate].
    destruct (result (getSupportedDatalinks p)) as [dls|]; [|discriminate].
    rewrite trySetKnownDatalink_loop_run in Hrun.
    destruct (first_known p dls) as [dl|] eqn:Hfirst; [|discriminate].
    destruct (isSuccess (fst (setDatalink dl p))) eqn:Hok; [|discriminate].
    injection Hrun as <-.
    rewrite (Hset dl p Hok), Hstable.
    exact (proj2 (first_known_some _ _ Hfirst)). }
  split; [exact Hknown|].
  rewrite trySetKnownDatalink_run, Hknown. reflexivity.
Qed.

(** X8 - when the current datalink is not known and the query reports
    success without carrying a list, reading the list ends the program:
    nothing is thrown, nothing is requested from the adapter. *)
Theorem trySetKnownDatalink_hollow_query (p : Pcap) :
  isDatalinkKnown p (getDatalink p) = false ->
  isSuccess (getSupportedDatalinks p) = true ->
  has_value (getSupportedDatalinks p) = false ->
  trySetKnownDatalink p = (Terminated, p).
Proof.
  intros Hcur Hok Hnone. rewrite trySetKnownDatalink_run, Hcur, Hok.
  unfold has_value in Hnone.
  destruct (result (getSupportedDatalinks p)); [discriminate|reflexivity].
Qed.

End NegotiationFacts.

Lemma StubPcap_set_installs : set_installs (Pcap:=StubPcap).
Proof.
  intros dl p Hok. cbn in *. rewrite Hok. reflexivity.
Qed.

Lemma StubPcap_known_stable : known_stable (Pcap:=StubPcap).
Proof.
  intros dl dl' p. cbn. destruct (isSuccess (stub_set p dl)); reflexivity.
Qed.

Lemma trySetKnownDatalink_loop_first_only_witness :
  none_known stub_picky [DLT_IEEE802_11] /\
  isDatalinkKnown stub_picky DLT_EN10MB = true /\
  isSuccess (fst (setDatalink DLT_RAW stub_picky)) = true /\
  trySetKnownDatalink_loop ([DLT_IEEE802_11] ++ DLT_EN10MB :: [DLT_RAW])
                           stub_picky =
  trySetKnownDatalink_loop [DLT_EN10MB] stub_picky /\
  fst (trySetKnownDatalink_loop [DLT_EN10MB] stub_picky) <> Normal tt.
Proof.
  assert (Hnone : none_known stub_picky [DLT_IEEE802_11]).
  { intros dl [<-|[]]. reflexivity. }
  split; [exact Hnone|]. split; [reflexivity|]. split; [reflexivity|].
  split; [|discriminate].
  apply (@trySetKnownDatalink_loop_first_only StubPcap StubPcapApi stub_picky
           [DLT_IEEE802_11] [DLT_RAW] DLT_EN10MB Hnone).
  reflexivity.
Defined.

Lemma trySetKnownDatalink_settles_witness :
  trySetKnownDatalink stub_ok = (Normal tt, stub_known_current) /\
  isDatalinkKnown stub_known_current (getDatalink stub_known_current) = true /\
  trySetKnownDatalink stub_known_current = (Normal tt, stub_known_current).
Proof.
  assert (Hrun : trySetKnownDatalink stub_ok = (Normal tt, stub_known_current))
    by reflexivity.
  split; [exact Hrun|].
  apply (@trySetKnownDatalink_settles StubPcap StubPcapApi stub_ok
           stub_known_current StubPcap_set_installs StubPcap_known_stable Hrun).
Defined.

Lemma trySetKnownDatalink_hollow_query_witness :
  isDatalinkKnown stub_hollow (getDatalink stub_hollow) = false /\
  isSuccess (getSupportedDatalinks stub_hollow) = true /\
  has_value (getSupportedDatalinks stub_hollow) = false /\
  trySetKnownDatalink stub_hollow = (Terminated, stub_hollow).
Proof.
  split; [reflexivity|]. split; [reflexivity|]. split; [reflexivity|].
  apply (@trySetKnownDatalink_hollow_query StubPcap StubPcapApi stub_hollow);
    reflexivity.
Defined.

(* ===================================================================== *)
(** ** Further properties: the per-frame handler                         *)
(* ===================================================================== *)

Section CallbackFacts.
Variable SinkExn : Type.
Variable fromRawIp : Span -> option SimpleUdpPacket.
Variable direction : SimpleUdpPacket -> PacketDirection.
Variable onClientPacket onServerPacket :
  list SinkCall -> RawPacket -> option SinkExn.

(** X9 - the handler catches nothing and raises nothing of its own: it
    never ends the program, and an exception leaves it exactly when the
    frame parses, has a direction, and the sink of that direction throws
    that exception on the packet made from the payload. *)
Theorem packetArrived_outcome (packet : PcapPacket) (calls : list SinkCall) :
  fst (packetArrived fromRawIp direction onClientPacket onServerPacket
                     packet calls) <> Terminated /\
  (forall e : SinkExn,
      fst (packetArrived fromRawIp direction onClientPacket onServerPacket
                         packet calls) = Thrown e <->
      exists udp,
        fromRawIp (Span_of (pkt_data packet)) = Some udp /\
        ((direction udp = FROM_CLIENT /\
          onClientPacket calls (mkRawPacket (to_sv (udp_data udp))) = Some e) \/
         (direction udp = FROM_SERVER /\
          onServerPacket calls (mkRawPacket (to_sv (udp_data udp))) = Some e))).
Proof.
  unfold packetArrived, packetFromClient, packetFromServer, invoke,
         string_of_sv.
  destruct (fromRawIp (Span_of (pkt_data packet))) as [udp|].
  2:{ split; [discriminate|]. intros e. split; [discriminate|].
      intros (udp & Hx & _). discriminate. }
  destruct (direction udp) eqn:Hdir; cbn [fst ret].
  - destruct (onClientPacket calls _) as [e0|] eqn:Hsink;
      (split; [discriminate|]); intros e; split.
    + intros Heq. injection Heq as <-. exists udp. split; [reflexivity|].
      left. split; [exact Hdir|exact Hsink].
    + intros (udp' & Hudp & Hcase). injection Hudp as <-.
      destruct Hcase as [[Hd Hs]|[Hd Hs]]; congruence.
    + discriminate.
    + intros (udp' & Hudp & Hcase). injection Hudp as <-.
      destruct Hcase as [[Hd Hs]|[Hd Hs]]; congruence.
  - destruct (onServerPacket calls _) as [e0|] eqn:Hsink;
      (split; [discriminate|]); intros e; split.
    + intros Heq. injection Heq as <-. exists udp. split; [reflexivity|].
      right. split; [exact Hdir|exact Hsink].
    + intros (udp' & Hudp & Hcase). injection Hudp as <-.
      destruct Hcase as [[Hd Hs]|[Hd Hs]]; congruence.
    + discriminate.
    + intros (udp' & Hudp & Hcase). injection Hudp as <-.
      destruct Hcase as [[Hd Hs]|[Hd Hs]]; congruence.
  - split; [discriminate|]. intros e. split; [discriminate|].
    intros (udp' & Hudp & Hcase). injection Hudp as <-.
    destruct Hcase as [[Hd Hs]|[Hd Hs]]; congruence.
Qed.

(** The calls after one frame: the calls before, and the call of the
    frame. *)
Lemma packetArrived_calls (packet : PcapPacket) (calls : list SinkCall) :
  snd (packetArrived fromRawIp direction onClientPacket onServerPacket
                     packet calls) =
  (calls ++ frameCalls fromRawIp direction packet)%list.
Proof.
  unfold packetArrived, frameCalls, packetFromClient, packetFromServer,
         invoke, string_of_sv.
  destruct (fromRawIp (Span_of (pkt_data packet))) as [udp|];
    [destruct (direction udp)|]; cbn [snd ret];
      try reflexivity; now rewrite app_nil_r.
Qed.

Lemma frameCalls_length (packet : PcapPacket) :
  length (frameCalls fromRawIp direction packet) <= 1.
Proof.
  unfold frameCalls.
  destruct (fromRawIp (Span_of (pkt_data packet))) as [udp|];
    [destruct (direction udp)|]; simpl; lia.
Qed.

Lemma packetArrived_quiet (packet : PcapPacket) (calls : list SinkCall) :
  sinks_quiet onClientPacket onServerPacket ->
  fst (packetArrived fromRawIp direction onClientPacket onServerPacket
                     packet calls) = Normal tt.
Proof.
  intros Hquiet.
  unfold packetArrived, packetFromClient, packetFromServer, invoke.
  destruct (fromRawIp (Span_of (pkt_data packet))) as [udp|];
    [destruct (direction udp)|]; cbn [fst ret]; try reflexivity.
  - now rewrite (proj1 (Hquiet calls _)).
  - now rewrite (proj2 (Hquiet calls _)).
Qed.

Lemma packetsArrived_cons (packet : PcapPacket) (rest : list PcapPacket)
      (calls : list SinkCall) :
  packetsArrived fromRawIp direction onClientPacket onServerPacket
                 (packet :: rest) calls =
  match fst (packetArrived fromRawIp direction onClientPacket onServerPacket
                           packet calls) with
  | Normal _ =>
      packetsArrived fromRawIp direction onClientPacket onServerPacket rest
                     (calls ++ frameCalls fromRawIp direction packet)%list
  | Thrown e =>
      (Thrown e, (calls ++ frameCalls fromRawIp direction packet)%list)
  | Terminated =>
      (Terminated, (calls ++ frameCalls fromRawIp direction packet)%list)
  end.
Proof.
  cbn [packetsArrived]. unfold bind.
  rewrite <- packetArrived_calls.
  destruct (packetArrived fromRawIp direction onClientPacket onServerPacket
                          packet calls) as [[[]|e|] calls'];
    reflexivity.
Qed.

(** X10 - over any sequence of frames, whatever the sinks do: the calls
    made before are kept, the new calls are an initial part of the calls
    that the frames stand for, in the order of the frames, and there is at
    most one of them per frame. *)
Theorem packetsArrived_calls (packets : list PcapPacket) :
  forall calls : list SinkCall,
  exists new rest : list SinkCall,
    snd (packetsArrived fromRawIp direction onClientPacket onServerPacket
                        packets calls) = (calls ++ new)%list /\
    flat_map (frameCalls fromRawIp direction) packets = (new ++ rest)%list /\
    length new <= length packets.
Proof.
  induction packets as [|packet packets IH]; intros calls.
  - exists [], []. cbn. rewrite app_nil_r. repeat split. lia.
  - rewrite packetsArrived_cons.
    pose proof (frameCalls_length packet) as Hone.
    destruct (fst (packetArrived fromRawIp direction onClientPacket
                                 onServerPacket packet calls)) as [[]|e|].
    + destruct (IH (calls ++ frameCalls fromRawIp direction packet)%list)
        as (new & rest & Hcalls & Hflat & Hlen).
      exists (frameCalls fromRawIp direction packet ++ new)%list, rest.
      rewrite Hcalls. cbn [flat_map]. rewrite Hflat, !app_assoc.
      repeat split. rewrite length_app. cbn [length]. lia.
    + exists (frameCalls fromRawIp direction packet),
             (flat_map (frameCalls fromRawIp direction) packets).
      repeat split. cbn [length]. lia.
    + exists (frameCalls fromRawIp direction packet),
             (flat_map (frameCalls fromRawIp direction) packets).
      repeat split. cbn [length]. lia.
Qed.

(** X11 - with sinks that do not throw, handling a sequence of frames
    returns normally and makes exactly the calls that the frames stand for,
    in the order of the frames. *)
Theorem packetsArrived_quiet (packets : list PcapPacket) :
  sinks_quiet onClientPacket onServerPacket ->
  forall calls : list SinkCall,
    packetsArrived fromRawIp direction onClientPacket onServerPacket
                   packets calls =
    (Normal tt,
     (calls ++ flat_map (frameCalls fromRawIp direction) packets)%list).
Proof.
  intros Hquiet. induction packets as [|packet packets IH]; intros calls.
  - cbn. now rewrite app_nil_r.
  - rewrite packetsArrived_cons, packetArrived_quiet by assumption.
    rewrite IH. cbn [flat_map]. now rewrite app_assoc.
Qed.

End CallbackFacts.

Lemma quietSink_quiet : sinks_quiet quietSink quietSink.
Proof. intros calls p. split; reflexivity. Qed.

Lemma packetsArrived_quiet_witness :
  sinks_quiet quietSink quietSink /\
  packetsArrived fromRawIp_spec (getPacketDirection scenarioListener)
                 quietSink quietSink
                 [clientFrame; fragmentFrame; serverFrame; unrelatedFrame] [] =
  (Normal tt,
   ([] ++ flat_map (frameCalls fromRawIp_spec
                               (getPacketDirection scenarioListener))
                   [clientFrame; fragmentFrame; serverFrame; unrelatedFrame])%list).
Proof.
  split; [exact quietSink_quiet|].
  apply (@packetsArrived_quiet unit fromRawIp_spec
           (getPacketDirection scenarioListener) quietSink quietSink
           [clientFrame; fragmentFrame; serverFrame; unrelatedFrame]
           quietSink_quiet []).
Defined.

(** A capture of four frames: the two related ones reach their sinks, in
    order. *)
Example capture_of_four :
  packetsArrived fromRawIp_spec (getPacketDirection scenarioListener)
                 quietSink quietSink
                 [clientFrame; fragmentFrame; serverFrame; unrelatedFrame] [] =
  (Normal tt, [ClientSink (mkRawPacket getstatusPayload);
               ServerSink (mkRawPacket statusResponsePayload)]).
Proof. vm_compute. reflexivity. Qed.

(* ===================================================================== *)
(** ** Further properties: the filter expression                         *)
(* ===================================================================== *)

Lemma append_cancel_l (s x y : string) : s ++ x = s ++ y -> x = y.
Proof.
  induction s as [|c s IH]; simpl; intros Heq; [exact Heq|].
  injection Heq as Heq. now apply IH.
Qed.

(** Two runs of digits that are each followed by a closing parenthesis and
    give the same text are the same run. *)
Lemma digits_then_paren (s1 : string) : forall s2 t1 t2 a1 a2 n1 n2,
  parse_dec_aux s1 a1 = Some n1 ->
  parse_dec_aux s2 a2 = Some n2 ->
  s1 ++ String ")" t1 = s2 ++ String ")" t2 ->
  s1 = s2.
Proof.
  induction s1 as [|c s1 IH]; intros s2 t1 t2 a1 a2 n1 n2 H1 H2 Heq;
    destruct s2 as [|c2 s2]; simpl in Heq.
  - reflexivity.
  - injection Heq as Hc _. subst c2. cbn in H2. discriminate.
  - injection Heq as Hc _. subst c. cbn in H1. discriminate.
  - injection Heq as Hc Heq. subst c2. f_equal.
    cbn [parse_dec_aux] in H1, H2.
    destruct (digit_of c) as [d|]; [|discriminate].
    exact (IH s2 t1 t2 _ _ n1 n2 H1 H2 Heq).
Qed.

Lemma dec_parse_dec_aux (n : N) : parse_dec_aux (dec n) 0 = Some n.
Proof. unfold dec. apply parse_dec_aux_dec_aux, dec_fuel. Qed.

(** X12 - for one server address, different ports give different filters. *)
Theorem createFilterStr_port_injective (A : string) (P1 P2 : N) :
  createFilterStr (mkListener A P1) = createFilterStr (mkListener A P2) ->
  P1 = P2.
Proof.
  unfold createFilterStr, str, insert, Insertable_string, Insertable_N.
  cbn [serverAddr serverPort]. rewrite !append_nil_l, !append_assoc.
  intros Heq.
  do 2 apply append_cancel_l in Heq.
  apply append_cancel_l with (s := " and dst port ") in Heq.
  assert (Hdec : dec P1 = dec P2).
  { exact (@digits_then_paren (dec P1) (dec P2) _ _ 0%N 0%N P1 P2
                                (dec_parse_dec_aux P1)
                                (dec_parse_dec_aux P2) Heq). }
  pose proof (dec_parse_dec_aux P1) as Hp. rewrite Hdec in Hp.
  rewrite dec_parse_dec_aux in Hp. now injection Hp.
Qed.

Lemma createFilterStr_port_injective_witness :
  createFilterStr (mkListener "1.2.3.4" 29070) =
  createFilterStr (mkListener "1.2.3.4" (29000 + 70)) /\
  (29070 = 29000 + 70)%N.
Proof.
  assert (Heq : createFilterStr (mkListener "1.2.3.4" 29070) =
                createFilterStr (mkListener "1.2.3.4" (29000 + 70)))
    by reflexivity.
  split; [exact Heq|].
  apply (@createFilterStr_port_injective "1.2.3.4" 29070 (29000 + 70) Heq).
Defined.
